(** * Catalog repository cloning: a shallow embedding

    This development embeds the Go code of the catalog [module] package
    ([src/cli/commands/run/command.go], second document: [Repo], [NewRepo],
    [clone], [prepareCloneDirectory], [performClone], [parseRemoteURL],
    [parseBranchName]) together with the library functions it calls, and
    states the properties of the retrieval engine over that embedding.

    Go strings are byte sequences: they are modelled by [string], whose
    characters ([ascii]) are bytes.  Functions that update the receiver
    [*Repo] and touch the file system are written in a state-and-error
    monad over the pair of the receiver and the world. *)

From Stdlib Require Import String Ascii List Bool Arith Lia.
From stdpp Require Import base gmap strings list fin_maps.

Open Scope string_scope.

(** ** Go's [strings] package (the functions the code uses) *)

Module strings.

(** [strings.HasPrefix(s, prefix)] *)
Fixpoint HasPrefix (s p : string) : bool :=
  match p, s with
  | EmptyString, _ => true
  | String _ _, EmptyString => false
  | String b p', String a s' => Ascii.eqb a b && HasPrefix s' p'
  end.

(** [strings.TrimPrefix(s, prefix)]: [s] without the leading [prefix], or
    [s] itself when it does not start with [prefix]. *)
Definition TrimPrefix (s p : string) : string :=
  if HasPrefix s p then substring (String.length p) (String.length s - String.length p) s
  else s.

(** White space as defined by Unicode ([unicode.IsSpace]), each rune given by
    its UTF-8 encoding: the six ASCII ones, U+0085, U+00A0, U+1680,
    U+2000..U+200A, U+2028, U+2029, U+202F, U+205F and U+3000. *)
Definition space_runes : list (list ascii) :=
  map (map ascii_of_nat)
    [ [9]; [10]; [11]; [12]; [13]; [32];
      [194; 133]; [194; 160]; [225; 154; 128];
      [226; 128; 128]; [226; 128; 129]; [226; 128; 130]; [226; 128; 131];
      [226; 128; 132]; [226; 128; 133]; [226; 128; 134]; [226; 128; 135];
      [226; 128; 136]; [226; 128; 137]; [226; 128; 138];
      [226; 128; 168]; [226; 128; 169]; [226; 128; 175];
      [226; 129; 159]; [227; 128; 128] ].

(** [strip_prefix p l]: [l] without the leading bytes [p], when it has them. *)
Fixpoint strip_prefix (p l : list ascii) : option (list ascii) :=
  match p, l with
  | [], _ => Some l
  | _ :: _, [] => None
  | b :: p', a :: l' => if Ascii.eqb a b then strip_prefix p' l' else None
  end.

(** Remove one leading rune of [runes] from [l], if there is one. *)
Fixpoint strip_one (runes : list (list ascii)) (l : list ascii) : option (list ascii) :=
  match runes with
  | [] => None
  | r :: runes' =>
      match strip_prefix r l with
      | Some l' => Some l'
      | None => strip_one runes' l
      end
  end.

Fixpoint trim_left_fuel (runes : list (list ascii)) (n : nat) (l : list ascii) : list ascii :=
  match n with
  | O => l
  | S n' =>
      match strip_one runes l with
      | Some l' => trim_left_fuel runes n' l'
      | None => l
      end
  end.

Definition trim_left (l : list ascii) : list ascii :=
  trim_left_fuel space_runes (List.length l) l.

(** Trailing white space is decoded backwards from the end of the string;
    on bytes that is the same scan over the reversed string with the
    encodings reversed. *)
Definition trim_right (l : list ascii) : list ascii :=
  rev (trim_left_fuel (map (@rev ascii) space_runes) (List.length l) (rev l)).

(** [strings.TrimSpace(s)] *)
Definition TrimSpace (s : string) : string :=
  string_of_list_ascii (trim_right (trim_left (list_ascii_of_string s))).

(** [strings.Trim(s, cutset)] with a one-character cutset. *)
Fixpoint trim_char_left (c : ascii) (l : list ascii) : list ascii :=
  match l with
  | a :: l' => if Ascii.eqb a c then trim_char_left c l' else l
  | [] => []
  end.

Definition Trim1 (s : string) (c : ascii) : string :=
  string_of_list_ascii
    (rev (trim_char_left c (rev (trim_char_left c (list_ascii_of_string s))))).

(** Split on a separator byte, as [strings.Split(s, sep)] does for a
    one-byte separator: [n] separators give [n + 1] fields. *)
Fixpoint split_on (c : ascii) (l : list ascii) : list (list ascii) :=
  match l with
  | [] => [[]]
  | a :: l' =>
      if Ascii.eqb a c then [] :: split_on c l'
      else match split_on c l' with
           | f :: fs => (a :: f) :: fs
           | [] => [[a]]
           end
  end.

Definition Split1 (s : string) (c : ascii) : list string :=
  map string_of_list_ascii (split_on c (list_ascii_of_string s)).

(** [strings.Join(elems, sep)] *)
Fixpoint Join (elems : list string) (sep : string) : string :=
  match elems with
  | [] => ""
  | [e] => e
  | e :: rest => e ++ sep ++ Join rest sep
  end.

End strings.

(** ** Go's [regexp] package

    The two patterns of the source use anchors, one-character classes with
    greedy or lazy repetition, an optional group and one capture group.
    Go's matcher returns the match a backtracking search finds first
    (leftmost-first), which is what [rmatch] computes by trying the
    alternatives of each operator in priority order.

    Matching is done on bytes.  Go matches on runes, but the classes of the
    two patterns only single out bytes below 0x80 (['/'], the newline, ['.'],
    letters), which never occur inside a multi-byte UTF-8 sequence, so the
    bounds of the groups are the same. *)

Module regexp.

Inductive re : Type :=
| Bol                                        (* ^ : beginning of text *)
| Eol                                        (* $ : end of text (no multi-line flag) *)
| Cls (p : ascii → bool)                     (* one character of a class *)
| Star (greedy : bool) (p : ascii → bool)    (* c* and c*? over a class *)
| Opt (r : re)                               (* r? (greedy) *)
| Cat (r1 r2 : re)
| Grp (i : nat) (r : re).                    (* capturing group number i *)

(** Bounds (begin, end offsets) of the groups matched so far. *)
Definition caps : Type := list (nat * (nat * nat)).

Fixpoint get_cap (i : nat) (c : caps) : option (nat * nat) :=
  match c with
  | [] => None
  | (j, be) :: c' => if Nat.eqb i j then Some be else get_cap i c'
  end.

(** A continuation takes the current offset, the rest of the text and the
    groups, and returns the end offset of the whole match. *)
Definition cont : Type := nat → list ascii → caps → option (nat * caps).

Fixpoint star_greedy (p : ascii → bool) (k : cont) (pos : nat) (rest : list ascii) (c : caps)
  : option (nat * caps) :=
  match rest with
  | a :: rest' =>
      if p a then
        match star_greedy p k (S pos) rest' c with
        | Some r => Some r
        | None => k pos rest c
        end
      else k pos rest c
  | [] => k pos rest c
  end.

Fixpoint star_lazy (p : ascii → bool) (k : cont) (pos : nat) (rest : list ascii) (c : caps)
  : option (nat * caps) :=
  match k pos rest c with
  | Some r => Some r
  | None =>
      match rest with
      | a :: rest' => if p a then star_lazy p k (S pos) rest' c else None
      | [] => None
      end
  end.

Fixpoint rmatch (r : re) (k : cont) (pos : nat) (rest : list ascii) (c : caps)
  : option (nat * caps) :=
  match r with
  | Bol => if Nat.eqb pos 0 then k pos rest c else None
  | Eol => match rest with [] => k pos rest c | _ :: _ => None end
  | Cls p =>
      match rest with
      | a :: rest' => if p a then k (S pos) rest' c else None
      | [] => None
      end
  | Star g p => if g then star_greedy p k pos rest c else star_lazy p k pos rest c
  | Opt r1 =>
      match rmatch r1 k pos rest c with
      | Some x => Some x
      | None => k pos rest c
      end
  | Cat r1 r2 => rmatch r1 (λ pos' rest' c', rmatch r2 k pos' rest' c') pos rest c
  | Grp i r1 => rmatch r1 (λ pos' rest' c', k pos' rest' ((i, (pos, pos')) :: c')) pos rest c
  end.

Definition accept : cont := λ pos _ c, Some (pos, c).

(** The leftmost start offset at which the pattern matches. *)
Fixpoint search (r : re) (pos : nat) (rest : list ascii) : option (nat * nat * caps) :=
  match rmatch r accept pos rest [] with
  | Some (e, c) => Some (pos, e, c)
  | None =>
      match rest with
      | [] => None
      | _ :: rest' => search r (S pos) rest'
      end
  end.

(** A compiled pattern: its syntax and its number of capture groups. *)
Record Regexp : Type := MustCompile { syntax : re; NumSubexp : nat }.

Definition slice (text : list ascii) (b e : nat) : string :=
  string_of_list_ascii (take (e - b) (drop b text)).

(** [re.FindStringSubmatch(s)]: the text of the leftmost match and of its
    groups (the empty string for a group that took no part); the empty
    slice when there is no match. *)
Definition FindStringSubmatch (rx : Regexp) (s : string) : list string :=
  let text := list_ascii_of_string s in
  match search (syntax rx) 0 text with
  | None => []
  | Some (b, e, c) =>
      slice text b e ::
      map (λ i, match get_cap i c with
                | Some (gb, ge) => slice text gb ge
                | None => ""
                end)
          (seq 1 (NumSubexp rx))
  end.

(** [re.MatchString(s)]: whether the text contains a match. *)
Definition MatchString (rx : Regexp) (s : string) : bool :=
  match search (syntax rx) 0 (list_ascii_of_string s) with
  | Some _ => true
  | None => false
  end.

(** Character classes *)
Definition any_byte : ascii → bool := λ _, true.
Definition chr (c : ascii) : ascii → bool := λ a, Ascii.eqb a c.
Definition not_chr (c : ascii) : ascii → bool := λ a, negb (Ascii.eqb a c).
(** [.] without the [s] flag: any character but the newline *)
Definition dot : ascii → bool := not_chr "010"%char.

(** The characters of [l], one after the other, and then [r]. *)
Fixpoint Lit (l : list ascii) (r : re) : re :=
  match l with
  | [] => r
  | a :: l' => Cat (Cls (chr a)) (Lit l' r)
  end.

End regexp.

(** ** Errors

    [PathError] and [SyscallError] are the errors of package [os];
    [External] stands for an error value produced by one of the libraries
    the package calls into ([cas], [tf], [getter], [ini]); [Errorf] is
    [errors.Errorf] with its format string and arguments kept apart;
    [WithStack] is [errors.New(err)], which wraps [err] with a stack trace
    and keeps it as its cause. *)

Inductive error : Type :=
| PathError (op : string) (path : string)
| SyscallError (op : string)
| External (pkg : string) (msg : string)
| Errorf (format : string) (args : list string)
| WithStack (e : error).

(** The error at the bottom of a chain of [errors.New] wrappers. *)
Fixpoint cause (e : error) : error :=
  match e with
  | WithStack e' => cause e'
  | _ => e
  end.

Inductive result (A : Type) : Type :=
| Ok (a : A)
| Err (e : error).
Arguments Ok {A} a.
Arguments Err {A} e.

Definition result_err {A} (r : result A) : option error :=
  match r with
  | Ok _ => None
  | Err e => Some e
  end.

(** ** Paths: Go's [path/filepath] on Unix *)

Module filepath.

(** [filepath.IsAbs(path)] *)
Definition IsAbs (p : string) : bool := strings.HasPrefix p "/".

(** One element of the lexical processing done by [filepath.Clean]: empty
    and ["."] elements are dropped, [".."] removes the element before it,
    is dropped at the root, and is kept at the front of a relative path. *)
Definition clean_step (rooted : bool) (acc : list string) (seg : string) : list string :=
  if String.eqb seg "" || String.eqb seg "." then acc
  else if String.eqb seg ".." then
    match last acc with
    | Some t => if String.eqb t ".." then acc ++ [".."] else removelast acc
    | None => if rooted then acc else [".."]
    end
  else acc ++ [seg].

Definition elements (rooted : bool) (p : string) : list string :=
  fold_left (clean_step rooted) (strings.Split1 p "/"%char) [].

(** [filepath.Clean(path)] *)
Definition Clean (p : string) : string :=
  if String.eqb p "" then "."
  else
    let rooted := IsAbs p in
    match elements rooted p with
    | [] => if rooted then "/" else "."
    | segs => (if rooted then "/" else "") ++ strings.Join segs "/"
    end.

(** [filepath.Join(elem...)]: the elements from the first non-empty one on,
    separated by slashes and cleaned; the empty string when all are empty. *)
Fixpoint Join (elem : list string) : string :=
  match elem with
  | [] => ""
  | e :: rest => if String.eqb e "" then Join rest else Clean (strings.Join elem "/")
  end.

(** [filepath.Abs(path)]: the cleaned path when it is absolute, otherwise
    the path joined to the working directory [wd] that [os.Getwd()] returns,
    or the error of [os.Getwd()]. *)
Definition Abs (wd : option string) (p : string) : result string :=
  if IsAbs p then Ok (Clean p)
  else match wd with
       | Some d => Ok (Join [d; p])
       | None => Err (SyscallError "getwd")
       end.

End filepath.

(** ** The world: file system, working directory, trace of library calls

    The file system is a finite map from resolved paths (the list of the
    names from the root down) to nodes; the root itself is always a
    directory and has no entry.  There are no symbolic links, so a path is
    resolved lexically.  [cwd] is what [os.Getwd] returns, [None] when it
    fails.  [trace] records, in order, every fallible library call the
    package makes while cloning, with the error it returned. *)

Inductive node : Type :=
| Dir
| File (content : string).

Inductive call : Type :=
| CallGetwd
| CallAbs (p : string)
| CallMkdirAll (p : string)
| CallRemoveAll (p : string)
| CallCreate (p : string)
| CallCasNew (src dir : string)
| CallCasClone (src dir : string)
| CallToSourceURL (src : string)
| CallGetterGet (dst src : string).

Record event : Type := Ev { ev_call : call; ev_err : option error }.

Abbreviation tree := (gmap (list string) node).

Record World : Type := mkWorld {
  fs : tree;
  cwd : option string;
  trace : list event
}.

(** Path resolution: the empty path names nothing; a relative path is taken
    from the working directory. *)
Definition resolve (d : option string) (p : string) : option (list string) :=
  if String.eqb p "" then None
  else if filepath.IsAbs p then Some (filepath.elements true p)
  else match d with
       | Some d' => Some (filepath.elements true (d' ++ "/" ++ p))
       | None => None
       end.

Definition lookup_path (t : tree) (p : list string) : option node :=
  match p with
  | [] => Some Dir
  | _ :: _ => t !! p
  end.

(** [os.Stat(path)] *)
Definition stat (w : World) (p : string) : option node :=
  match resolve (cwd w) p with
  | Some rp => lookup_path (fs w) rp
  | None => None
  end.

(** Create the directories [pre/s1], [pre/s1/s2], ... that do not exist
    yet, top down; stop at a name that is a file. *)
Fixpoint mkdirs (t : tree) (pre rest : list string) : tree * bool :=
  match rest with
  | [] => (t, true)
  | s :: rest' =>
      let p := (pre ++ [s])%list in
      match t !! p with
      | Some (File _) => (t, false)
      | Some Dir => mkdirs t p rest'
      | None => mkdirs (<[p := Dir]> t) p rest'
      end
  end.

(** Everything at or below [rp] removed. *)
Definition remove_subtree (rp : list string) (t : tree) : tree :=
  filter (λ kv, ¬ rp `prefix_of` kv.1) t.

(** ** The state-and-error monad of the methods of [*Repo]

    A computation takes the receiver and the world and returns its result
    with the receiver and the world as it left them: Go methods keep the
    assignments they made to the receiver when they return an error. *)

Section Monad.
Context {S : Type}.

Definition M (A : Type) : Type := S → World → result A * S * World.

Definition ret {A} (a : A) : M A := λ s w, (Ok a, s, w).

Definition bind {A B} (m : M A) (k : A → M B) : M B :=
  λ s w,
    match m s w with
    | (Ok a, s', w') => k a s' w'
    | (Err e, s', w') => (Err e, s', w')
    end.

Definition fail {A} (e : error) : M A := λ s w, (Err e, s, w).

(** [if err != nil { return errors.New(err) }] around a call *)
Definition wrap_new {A} (m : M A) : M A :=
  λ s w,
    match m s w with
    | (Ok a, s', w') => (Ok a, s', w')
    | (Err e, s', w') => (Err (WithStack e), s', w')
    end.

Definition get : M S := λ s w, (Ok s, s, w).
Definition modify (f : S → S) : M unit := λ s w, (Ok tt, f s, w).
Definition world : M World := λ s w, (Ok w, s, w).

(** A library call: it sees the working directory, may change the file
    system, and is entered in the trace with the error it returned. *)
Definition lib {A} (c : call) (f : option string → tree → result A * tree) : M A :=
  λ s w,
    let '(r, t) := f (cwd w) (fs w) in
    (r, s, mkWorld t (cwd w) (trace w ++ [Ev c (result_err r)])).
End Monad.

Notation "'let*' x ':=' m 'in' k" := (bind m (fun x => k))
  (at level 10, x binder, k at level 200).

(** ** Package [os] and [go-commons/files] *)

Module os.

(** [os.Getwd()] *)
Definition Getwd {S} : M (S:=S) string :=
  lib CallGetwd (λ d t,
    match d with
    | Some d' => (Ok d', t)
    | None => (Err (SyscallError "getwd"), t)
    end).

(** [os.MkdirAll(path, perm)] *)
Definition MkdirAll {S} (p : string) : M (S:=S) unit :=
  lib (CallMkdirAll p) (λ d t,
    match resolve d p with
    | None => (Err (PathError "mkdir" p), t)
    | Some rp =>
        match mkdirs t [] rp with
        | (t', true) => (Ok tt, t')
        | (t', false) => (Err (PathError "mkdir" p), t')
        end
    end).

(** [os.RemoveAll(path)]: removes [path] and everything below it; no error
    when [path] is empty or does not exist.  The root cannot be removed:
    its content goes and the call fails. *)
Definition RemoveAll {S} (p : string) : M (S:=S) unit :=
  lib (CallRemoveAll p) (λ d t,
    if String.eqb p "" then (Ok tt, t)
    else
      match resolve d p with
      | None => (Err (PathError "RemoveAll" p), t)
      | Some [] => (Err (PathError "unlinkat" p), ∅)
      | Some rp => (Ok tt, remove_subtree rp t)
      end).

(** [os.Create(name)]: creates or truncates the file; its directory has to
    exist and [name] must not be a directory. *)
Definition Create {S} (p : string) : M (S:=S) unit :=
  lib (CallCreate p) (λ d t,
    match resolve d p with
    | None | Some [] => (Err (PathError "open" p), t)
    | Some rp =>
        match lookup_path t (removelast rp), t !! rp with
        | Some Dir, Some Dir => (Err (PathError "open" p), t)
        | Some Dir, _ => (Ok tt, <[rp := File ""]> t)
        | _, _ => (Err (PathError "open" p), t)
        end
    end).

End os.

Module files.

(** [files.FileExists(path)]: [os.Stat] succeeds *)
Definition FileExists (w : World) (p : string) : bool :=
  match stat w p with Some _ => true | None => false end.

(** [files.IsDir(path)]: [os.Stat] succeeds and reports a directory *)
Definition IsDir (w : World) (p : string) : bool :=
  match stat w p with Some Dir => true | _ => false end.

(** [files.ReadFileAsString(path)] *)
Definition ReadFileAsString (w : World) (p : string) : result string :=
  match stat w p with
  | Some (File c) => Ok c
  | _ => Err (PathError "open" p)
  end.

End files.

(** [filepath.Abs(path)] as a call on the world *)
Definition filepath_Abs {S} (p : string) : M (S:=S) string :=
  lib (CallAbs p) (λ d t, (filepath.Abs d p, t)).

(** ** Package [ini] (gopkg.in/ini.v1): a loaded file

    The sections in file order, each with its keys.  [SectionStrings] lists
    the section names; [Section(name).Key(key).String()] is the value of the
    key, the empty string when the section or the key is missing. *)

Module ini.

Record Section : Type := mkSection { Name : string; Keys : list (string * string) }.

Definition File : Type := list Section.

Definition SectionStrings (f : File) : list string := map Name f.

Fixpoint assoc (k : string) (l : list (string * string)) : string :=
  match l with
  | [] => ""
  | (k', v) :: l' => if String.eqb k k' then v else assoc k l'
  end.

Fixpoint SectionKeys (f : File) (name : string) : list (string * string) :=
  match f with
  | [] => []
  | s :: f' => if String.eqb (Name s) name then Keys s else SectionKeys f' name
  end.

Definition KeyString (f : File) (name key : string) : string :=
  assoc key (SectionKeys f name).

End ini.

(** ** The libraries behind the clone: [cas], [tf], [getter], [ini.Load]

    Their code is not part of the package; they are an interface the
    package is written against.  Each fetching call may change the file
    system in any way and may fail. *)

Module cas.

(** [cas.Options] *)
Record Options : Type := mkOptions {
  Dir : string;
  StorePath : string;
  IncludedGitFiles : list string
}.

(** Modelled from the spec: the ContentStore of package [cas] (its source
    file is not among the sources; only a benchmark that calls it is).  A
    store is rooted at a directory and holds one file per key, at a path
    that is a function of the key (a bucket named by the first two bytes of
    the key, then the key).  [Store] is a no-op when the key already has an
    entry; otherwise it writes the bytes to a temporary file in the store
    root and moves that into place.  A store whose root cannot be written
    makes the write fail. *)
Record Store : Type := mkStore {
  root : string;
  entries : gmap string string;
  temps : gmap string string;
  writable : bool
}.

Definition NewStore (path : string) : Store := mkStore path ∅ ∅ true.

Definition entryPath (st : Store) (key : string) : string :=
  root st ++ "/" ++ substring 0 2 key ++ "/" ++ key.

Definition hasContent (st : Store) (key : string) : bool :=
  match entries st !! entryPath st key with Some _ => true | None => false end.

Definition writeTemp (key data : string) (st : Store) : Store :=
  mkStore (root st) (entries st) (<[key := data]> (temps st)) (writable st).

Definition renameTemp (key : string) (st : Store) : Store :=
  match temps st !! key with
  | Some data =>
      mkStore (root st) (<[entryPath st key := data]> (entries st))
              (delete key (temps st)) (writable st)
  | None => st
  end.

(** Modelled from the spec: [Store(key, data)] of the ContentStore,
    missing from the sources. *)
Definition Content_Store (key data : string) (st : Store) : result unit * Store :=
  if hasContent st key then (Ok tt, st)
  else if writable st then (Ok tt, renameTemp key (writeTemp key data st))
  else (Err (PathError "open" (entryPath st key)), st).

(** Modelled from the spec: reading an entry back, the bytes of the file
    of the key. *)
Definition Content_Read (key : string) (st : Store) : result string :=
  match entries st !! entryPath st key with
  | Some data => Ok data
  | None => Err (PathError "open" (entryPath st key))
  end.

End cas.

(** ** Package [cln]: the git process client

    Only the test file of the package is among the sources.  The client,
    its errors and the [git] process it drives are modelled from the spec
    (sections 4.1, 6 and 7). *)

Module cln.

(** Modelled from the spec: the closed set of sentinels of section 7 (the
    declarations are in the missing source of package [cln]). *)
Inductive Sentinel : Type :=
| ErrNoWorkDir
| ErrCommandSpawn
| ErrNoMatchingReference
| ErrGitClone
| ErrReadTree.

(** Modelled from the spec: [WrappedError], one sentinel with free-form
    context; the tests read the sentinel from its field [Err]. *)
Record WrappedError : Type := mkWrapped { Op : string; Context : string; Err_ : Sentinel }.

Definition sentinel_eqb (a b : Sentinel) : bool :=
  match a, b with
  | ErrNoWorkDir, ErrNoWorkDir
  | ErrCommandSpawn, ErrCommandSpawn
  | ErrNoMatchingReference, ErrNoMatchingReference
  | ErrGitClone, ErrGitClone
  | ErrReadTree, ErrReadTree => true
  | _, _ => false
  end.

(** [errors.Is(wrapped.Err, sentinel)]: identity of the sentinel; the
    context takes no part. *)
Definition Is (e : WrappedError) (s : Sentinel) : bool := sentinel_eqb (Err_ e) s.

Record GitRef : Type := mkRef { Hash : string; Ref : string }.

Record TreeEntry : Type := mkEntry {
  EPath : string; EType : string; EMode : string; EHash : string
}.

(** A repository: its references and the tree of each commit. *)
Record Repository : Type := mkRepository {
  refs : list GitRef;
  trees : list (string * list TreeEntry)
}.

(** What a remote URL leads to. *)
Inductive Remote : Type :=
| Unreachable
| Misnamed
| AuthUnavailable
| Serving (r : Repository).

Record Net : Type := mkNet {
  remote : string → Remote;
  local : gmap string Repository
}.

(** Modelled from the spec: the client [GitRunner], stateless except for
    an optional bound working directory. *)
Record GitRunner : Type := mkRunner { WorkDir : option string }.

Definition NewGitRunner : GitRunner := mkRunner None.

(** Modelled from the spec: [WithWorkDir], missing from the sources; a new
    client bound to [path], the receiver is not changed. *)
Definition WithWorkDir (g : GitRunner) (path : string) : GitRunner := mkRunner (Some path).

(** Modelled from the spec: [RequiresWorkDir], missing from the sources;
    the precondition check of the directory-bound operations. *)
Definition RequiresWorkDir (g : GitRunner) : option WrappedError :=
  match WorkDir g with
  | Some _ => None
  | None => Some (mkWrapped "check_work_dir" "" ErrNoWorkDir)
  end.

Definition tab : ascii := "009"%char.
Definition newline : ascii := "010"%char.

Fixpoint has_suffix (s suf : list ascii) : bool :=
  if bool_decide (s = suf) then true
  else match s with
       | [] => false
       | _ :: s' => has_suffix s' suf
       end.

(** Modelled from the spec: how the remote side matches a reference
    against a pattern (the reference itself, or its last path components,
    as [git ls-remote] does). *)
Definition ref_matches (pattern ref : string) : bool :=
  String.eqb ref pattern
  || has_suffix (list_ascii_of_string ref) (list_ascii_of_string ("/" ++ pattern)).

(** Modelled from the spec: the process [git ls-remote <url> <pattern>],
    [None] when it fails before any answer of the protocol, otherwise its
    standard output, one line [<hash><TAB><ref-name>] per reference. *)
Definition print_ref (r : GitRef) : string :=
  Hash r ++ String tab (Ref r ++ String newline EmptyString).

Definition git_ls_remote (n : Net) (url pattern : string) : option string :=
  match remote n url with
  | Serving r =>
      Some (fold_right (λ r out, print_ref r ++ out) EmptyString
                       (filter (λ r, ref_matches pattern (Ref r) = true) (refs r)))
  | _ => None
  end.

Fixpoint break_at (c : ascii) (l : list ascii) : option (list ascii * list ascii) :=
  match l with
  | [] => None
  | a :: l' =>
      if Ascii.eqb a c then Some ([], l')
      else match break_at c l' with
           | Some (x, y) => Some (a :: x, y)
           | None => None
           end
  end.

Definition parse_line (l : list ascii) : option GitRef :=
  match break_at tab l with
  | Some (h, r) =>
      match h, r with
      | _ :: _, _ :: _ => Some (mkRef (string_of_list_ascii h) (string_of_list_ascii r))
      | _, _ => None
      end
  | None => None
  end.

Definition parse_refs (out : string) : list GitRef :=
  omap parse_line (strings.split_on newline (list_ascii_of_string out)).

(** Modelled from the spec: [LsRemote], missing from the sources.  It
    fails with [ErrCommandSpawn] when the process fails, with
    [ErrNoMatchingReference] when the output lists no reference. *)
Definition LsRemote (g : GitRunner) (n : Net) (url pattern : string)
  : WrappedError + list GitRef :=
  match git_ls_remote n url pattern with
  | None => inl (mkWrapped "git_ls_remote" url ErrCommandSpawn)
  | Some out =>
      match parse_refs out with
      | [] => inl (mkWrapped "git_ls_remote" pattern ErrNoMatchingReference)
      | rows => inr rows
      end
  end.

(** Modelled from the spec: [Clone], missing from the sources.  It needs
    the working directory and fails with [ErrGitClone] on any failure of
    the clone itself. *)
Definition Clone (g : GitRunner) (n : Net) (url : string) (shallow : bool) (depth : nat)
    (branch : string) : option WrappedError * Net :=
  match RequiresWorkDir g, WorkDir g with
  | Some e, _ => (Some e, n)
  | None, Some wd =>
      match remote n url with
      | Serving r =>
          if String.eqb branch "" || existsb (λ x, ref_matches branch (Ref x)) (refs r)
          then (None, mkNet (remote n) (<[wd := r]> (local n)))
          else (Some (mkWrapped "git_clone" url ErrGitClone), n)
      | _ => (Some (mkWrapped "git_clone" url ErrGitClone), n)
      end
  | None, None => (Some (mkWrapped "git_clone" url ErrNoWorkDir), n)
  end.

(** Modelled from the spec: [LsTree], missing from the sources.  It needs
    the working directory and fails with [ErrReadTree] when the reference
    does not resolve or the directory holds no repository. *)
Definition LsTree (g : GitRunner) (n : Net) (ref path : string)
  : WrappedError + list TreeEntry :=
  match RequiresWorkDir g, WorkDir g with
  | Some e, _ => inl e
  | None, Some wd =>
      match local n !! wd with
      | Some r =>
          match List.find (λ x, ref_matches ref (Ref x)) (refs r) with
          | Some x =>
              match List.find (λ t, String.eqb (fst t) (Hash x)) (trees r) with
              | Some (_, es) =>
                  inr (if String.eqb path "." then es
                       else List.filter (λ e, strings.HasPrefix (EPath e) path) es)
              | None => inl (mkWrapped "git_ls_tree" ref ErrReadTree)
              end
          | None => inl (mkWrapped "git_ls_tree" ref ErrReadTree)
          end
      | None => inl (mkWrapped "git_ls_tree" ref ErrReadTree)
      end
  | None, None => inl (mkWrapped "git_ls_tree" ref ErrNoWorkDir)
  end.

End cln.

Class Env : Type := {
  URL : Type;
  (** [tf.ToSourceURL(source, workingDir)] *)
  tf_ToSourceURL : string → string → result URL;
  (** the method [String()] of the URL *)
  URL_String : URL → string;
  (** assignment to the field [RawQuery] *)
  URL_withRawQuery : string → URL → URL;
  (** [cas.New(url, opts)] *)
  cas_New : string → cas.Options → option string → tree → result unit * tree;
  (** the method [Clone()] of the value [cas.New(url, opts)] returned *)
  cas_Clone : string → cas.Options → option string → tree → result unit * tree;
  (** [getter.Get(dst, src, ...)] in directory mode *)
  getter_Get : string → string → option string → tree → result unit * tree;
  (** the parser of [ini.Load], applied to the content of the file *)
  ini_parse : string → result ini.File
}.

(** ** Package [fmt]: [Sprintf] with the verb [%s]

    Each [%s] of the format is replaced by the next argument; every other
    character is copied.  (The formats of the package use no other verb
    with [Sprintf], and give as many arguments as verbs.) *)

Module fmt.

Fixpoint Sprintf (format : string) (args : list string) : string :=
  match format with
  | EmptyString => EmptyString
  | String a rest =>
      match rest with
      | String b rest' =>
          if Ascii.eqb a "%" && Ascii.eqb b "s" then
            match args with
            | x :: args' => x ++ Sprintf rest' args'
            | [] => "%!s(MISSING)" ++ Sprintf rest' []
            end
          else String a (Sprintf rest args)
      | EmptyString => String a EmptyString
      end
  end.

End fmt.

(** ** Package [vcsurl] (github.com/gitsight/go-vcsurl): a parsed remote *)

Module vcsurl.

(** The fields of [vcsurl.VCS] the package reads. *)
Record VCS : Type := mkVCS { Host : string; FullName : string }.

End vcsurl.

(** ** Package [module]: the catalog repository *)

Module module.

Definition dquote : string := String "034"%char EmptyString.

Definition cloneCompleteSentinel : string := ".catalog-clone-complete".

(** [regexp.MustCompile(`^.*?([^/]+)$`)] *)
Definition gitHeadBranchNameReg : regexp.Regexp :=
  let not_slash := regexp.not_chr "/"%char in
  regexp.MustCompile
    (regexp.Cat regexp.Bol
      (regexp.Cat (regexp.Star false regexp.dot)
        (regexp.Cat
          (regexp.Grp 1 (regexp.Cat (regexp.Cls not_slash) (regexp.Star true not_slash)))
          regexp.Eol)))
    1.

(** The class [[-a-z_.]] under the flag [(?i)].  (Go also folds the two
    non-ASCII runes U+017F and U+212A into [s] and [k]; a byte class leaves
    them out.) *)
Definition name_chr (a : ascii) : bool :=
  let n := nat_of_ascii a in
  Nat.leb 97 n && Nat.leb n 122 || Nat.leb 65 n && Nat.leb n 90
  || Ascii.eqb a "-" || Ascii.eqb a "_" || Ascii.eqb a ".".

Definition chr_i (lower upper : ascii) : ascii → bool :=
  λ a, Ascii.eqb a lower || Ascii.eqb a upper.

(** [regexp.MustCompile(`(?i)^.*?([-a-z_.]+)[^/]*?(?:\.git)?$`)] *)
Definition repoNameFromCloneURLReg : regexp.Regexp :=
  let dot_git :=
    regexp.Cat (regexp.Cls (regexp.chr "."))
      (regexp.Cat (regexp.Cls (chr_i "g" "G"))
        (regexp.Cat (regexp.Cls (chr_i "i" "I")) (regexp.Cls (chr_i "t" "T")))) in
  regexp.MustCompile
    (regexp.Cat regexp.Bol
      (regexp.Cat (regexp.Star false regexp.dot)
        (regexp.Cat
          (regexp.Grp 1 (regexp.Cat (regexp.Cls name_chr) (regexp.Star true name_chr)))
          (regexp.Cat (regexp.Star false (regexp.not_chr "/"))
            (regexp.Cat (regexp.Opt dot_git) regexp.Eol)))))
    1.

Definition includedGitFiles : list string := ["HEAD"; "config"].

(** The struct [Repo], without its logger: logging changes neither the
    receiver nor the file system. *)
Record Repo : Type := mkRepo {
  cloneURL : string;
  path : string;
  RemoteURL : string;
  BranchName : string;
  walkWithSymlinks : bool;
  useCAS : bool
}.

Definition set_cloneURL (v : string) (r : Repo) : Repo :=
  mkRepo v (path r) (RemoteURL r) (BranchName r) (walkWithSymlinks r) (useCAS r).
Definition set_path (v : string) (r : Repo) : Repo :=
  mkRepo (cloneURL r) v (RemoteURL r) (BranchName r) (walkWithSymlinks r) (useCAS r).
Definition set_RemoteURL (v : string) (r : Repo) : Repo :=
  mkRepo (cloneURL r) (path r) v (BranchName r) (walkWithSymlinks r) (useCAS r).
Definition set_BranchName (v : string) (r : Repo) : Repo :=
  mkRepo (cloneURL r) (path r) (RemoteURL r) v (walkWithSymlinks r) (useCAS r).

(** The struct [CloneOptions], without its context and logger. *)
Record CloneOptions : Type := mkCloneOptions {
  SourceURL : string;
  TargetPath : string
}.

Section Methods.
Context `{E : Env}.

Definition resolveCloneURL : M (S:=Repo) string :=
  let* repo := get in
  if String.eqb (cloneURL repo) "" then
    let* currentDir := wrap_new os.Getwd in
    ret currentDir
  else ret (cloneURL repo).

Definition handleLocalDir (repoPath : string) : M (S:=Repo) unit :=
  if negb (filepath.IsAbs repoPath) then
    let* absRepoPath := wrap_new (filepath_Abs repoPath) in
    let* _ := modify (set_path absRepoPath) in
    ret tt
  else
    let* _ := modify (set_path repoPath) in
    ret tt.

Definition extractRepoName : M (S:=Repo) string :=
  let* repo := get in
  let repoName := "temp" in
  match regexp.FindStringSubmatch repoNameFromCloneURLReg (cloneURL repo) with
  | _ :: m1 :: _ => if negb (String.eqb m1 "") then ret m1 else ret repoName
  | _ => ret repoName
  end.

Definition shouldCleanupIncompleteClone : M (S:=Repo) bool :=
  let* repo := get in
  let* w := world in
  ret (files.FileExists w (path repo)
       && negb (files.FileExists w (filepath.Join [path repo; cloneCompleteSentinel]))).

Definition prepareCloneDirectory (opts : CloneOptions) : M (S:=Repo) unit :=
  let* _ := wrap_new (os.MkdirAll (TargetPath opts)) in
  let* repoName := extractRepoName in
  let* _ := modify (set_path (filepath.Join [TargetPath opts; repoName])) in
  let* cleanup := shouldCleanupIncompleteClone in
  if cleanup then
    let* repo := get in
    let* _ := wrap_new (os.RemoveAll (path repo)) in
    ret tt
  else ret tt.

Definition performClone (opts : CloneOptions) : M (S:=Repo) unit :=
  let* repo := get in
  if useCAS repo then
    let o := cas.mkOptions (path repo) "" includedGitFiles in
    let* _ := lib (CallCasNew (SourceURL opts) (path repo))
                  (cas_New (SourceURL opts) o) in
    let* _ := lib (CallCasClone (SourceURL opts) (path repo))
                  (cas_Clone (SourceURL opts) o) in
    let* _ := wrap_new (os.Create (filepath.Join [path repo; cloneCompleteSentinel])) in
    ret tt
  else
    let* sourceURL := lib (CallToSourceURL (SourceURL opts))
                          (λ _ t, (tf_ToSourceURL (SourceURL opts) "", t)) in
    let* _ := modify (set_cloneURL (URL_String sourceURL)) in
    (* url.Values{ref: [HEAD]}.Encode() *)
    let sourceURL := URL_withRawQuery "ref=HEAD" sourceURL in
    let* repo := get in
    let src := strings.Trim1 (URL_String sourceURL) "/" in
    let* _ := lib (CallGetterGet (path repo) src)
                  (getter_Get (path repo) src) in
    let* _ := wrap_new (os.Create (filepath.Join [path repo; cloneCompleteSentinel])) in
    ret tt.

Definition clone : M (S:=Repo) unit :=
  let* cloneURL := resolveCloneURL in
  let* w := world in
  if files.IsDir w cloneURL then handleLocalDir cloneURL
  else
    let* repo := get in
    let opts := mkCloneOptions cloneURL (path repo) in
    let* _ := prepareCloneDirectory opts in
    performClone opts.

(** The loop of [parseRemoteURL] over the section names: [sectionName] is
    assigned at every name that starts with [remote], and the loop is left
    at the section of the remote [origin]. *)
Fixpoint remoteSection (names : list string) (sectionName : string) : string :=
  match names with
  | [] => sectionName
  | name :: rest =>
      if negb (strings.HasPrefix name "remote") then remoteSection rest sectionName
      else if String.eqb name ("remote " ++ dquote ++ "origin" ++ dquote) then name
      else remoteSection rest name
  end.

Definition parseRemoteURL : M (S:=Repo) unit :=
  let* repo := get in
  let* w := world in
  let gitConfigPath := filepath.Join [path repo; ".git"; "config"] in
  if negb (files.FileExists w gitConfigPath) then
    fail (Errorf "the specified path %q is not a git repository (no .git/config file found)"
                 [path repo])
  else
    match files.ReadFileAsString w gitConfigPath with
    | Err e => fail (WithStack e)
    | Ok content =>
        match ini_parse content with
        | Err e => fail (WithStack e)
        | Ok inidata =>
            let sectionName := remoteSection (ini.SectionStrings inidata) "" in
            if String.eqb sectionName "" then ret tt
            else modify (set_RemoteURL (ini.KeyString inidata sectionName "url"))
        end
    end.

Definition gitHeadfile (repo : Repo) : string :=
  filepath.Join [path repo; ".git"; "HEAD"].

Definition parseBranchName : M (S:=Repo) unit :=
  let* repo := get in
  let* w := world in
  match files.ReadFileAsString w (gitHeadfile repo) with
  | Err _ =>
      fail (Errorf "the specified path %q is not a git repository (no .git/HEAD file found)"
                   [path repo])
  | Ok data =>
      match regexp.FindStringSubmatch gitHeadBranchNameReg data with
      | _ :: m1 :: _ => modify (set_BranchName (strings.TrimSpace m1))
      | _ => fail (Errorf "could not get branch name for repo %q" [path repo])
      end
  end.

Definition NewRepo (cloneURL tempDir : string) (walkWithSymlinks allowCAS : bool)
    (w : World) : result Repo * World :=
  let isCAS := strings.HasPrefix cloneURL "cas://" in
  let cloneURL := if isCAS then strings.TrimPrefix cloneURL "cas://" else cloneURL in
  if isCAS && negb allowCAS then
    (Err (Errorf "cas:// protocol is not allowed without using the `cas` experiment. Please enable the experiment and try again." []), w)
  else
    let useCAS := isCAS in
    let repo := mkRepo cloneURL tempDir "" "" walkWithSymlinks useCAS in
    match (let* _ := clone in let* _ := parseRemoteURL in parseBranchName) repo w with
    | (Ok _, repo', w') => (Ok repo', w')
    | (Err e, _, w') => (Err e, w')
    end.

End Methods.

Definition githubHost : string := "github.com".
Definition gitlabHost : string := "gitlab.com".
Definition azuredevHost : string := "dev.azure.com".
Definition bitbucketHost : string := "bitbucket.org".

(** The pattern [^(<name>\.(.+))$] of the two self-hosted families. *)
Definition hostFamilyReg (name : string) : regexp.Regexp :=
  regexp.MustCompile
    (regexp.Cat regexp.Bol
      (regexp.Cat
        (regexp.Grp 1
          (regexp.Lit (list_ascii_of_string (name ++ "."))
            (regexp.Grp 2 (regexp.Cat (regexp.Cls regexp.dot)
                                      (regexp.Star true regexp.dot)))))
        regexp.Eol))
    2.

(** [regexp.MustCompile(githubEnterpriseRegex)], the pattern
    [^(github\.(.+))$] *)
Definition githubEnterprisePatternReg : regexp.Regexp := hostFamilyReg "github".

(** [regexp.MustCompile(gitlabSelfHostedRegex)], the pattern
    [^(gitlab\.(.+))$] *)
Definition gitlabSelfHostedPatternReg : regexp.Regexp := hostFamilyReg "gitlab".

Section URLs.
(** [vcsurl.Parse(url)] *)
Variable vcsurl_Parse : string → result vcsurl.VCS.

(** [ModuleURL]: the URL of the module at [moduleDir] in this repository. *)
Definition ModuleURL (repo : Repo) (moduleDir : string) : result string :=
  if String.eqb (RemoteURL repo) "" then Ok (filepath.Join [path repo; moduleDir])
  else
    match vcsurl_Parse (RemoteURL repo) with
    | Err e => Err (WithStack e)
    | Ok remote =>
        let host := vcsurl.Host remote in
        let full := vcsurl.FullName remote in
        if String.eqb host githubHost then
          Ok (fmt.Sprintf "https://%s/%s/tree/%s/%s" [host; full; BranchName repo; moduleDir])
        else if String.eqb host gitlabHost then
          Ok (fmt.Sprintf "https://%s/%s/-/tree/%s/%s" [host; full; BranchName repo; moduleDir])
        else if String.eqb host bitbucketHost then
          Ok (fmt.Sprintf "https://%s/%s/browse/%s?at=%s" [host; full; moduleDir; BranchName repo])
        else if String.eqb host azuredevHost then
          Ok (fmt.Sprintf "https://%s/_git/%s?path=%s&version=GB%s"
                          [host; full; moduleDir; BranchName repo])
        else if regexp.MatchString githubEnterprisePatternReg host then
          Ok (fmt.Sprintf "https://%s/%s/tree/%s/%s" [host; full; BranchName repo; moduleDir])
        else if regexp.MatchString gitlabSelfHostedPatternReg host then
          Ok (fmt.Sprintf "https://%s/%s/-/tree/%s/%s" [host; full; BranchName repo; moduleDir])
        else Err (Errorf "hosting: %q is not supported yet" [host])
    end.
End URLs.

End module.

(** ** A deterministic stand-in for the libraries

    Used to run the package on concrete inputs.  A fetch from a source
    under [https://down.example/] fails and leaves the file system as it
    is; any other fetch writes a small work tree with the two git metadata
    files into the destination.  [ToSourceURL] rejects sources that start
    with [bad:].  The parser reads section headers and [key = value]
    lines. *)

Module fake.

Definition nl : string := String "010"%char EmptyString.

Definition head_file : string := "ref: refs/heads/main" ++ nl.

Definition config_file (url : string) : string :=
  "[core]" ++ nl ++ "bare = false" ++ nl ++
  "[remote " ++ module.dquote ++ "origin" ++ module.dquote ++ "]" ++ nl ++
  "url = " ++ url ++ nl.

Definition put (d : option string) (p : string) (n : node) (t : tree) : tree :=
  match resolve d p with
  | Some rp => <[rp := n]> t
  | None => t
  end.

Definition checkout (dst src : string) (d : option string) (t : tree) : tree :=
  put d (dst ++ "/.git/config") (File (config_file src))
    (put d (dst ++ "/.git/HEAD") (File head_file)
      (put d (dst ++ "/.git") Dir
        (put d (dst ++ "/main.tf") (File "# module")
          (put d dst Dir t)))).

Definition down (src : string) : bool :=
  strings.HasPrefix src "https://down.example/"
  || strings.HasPrefix src "git::https://down.example/".

Definition fetch (dst src : string) (d : option string) (t : tree) : result unit * tree :=
  if down src then (Err (External "fetch" src), t)
  else (Ok tt, checkout dst src d t).

(** Lines of an INI file *)
Definition trim (l : list ascii) : list ascii :=
  list_ascii_of_string (strings.TrimSpace (string_of_list_ascii l)).

Definition header (l : list ascii) : option string :=
  match l with
  | a :: l' =>
      if Ascii.eqb a "[" then
        match rev l' with
        | b :: m => if Ascii.eqb b "]" then Some (string_of_list_ascii (rev m)) else None
        | [] => None
        end
      else None
  | [] => None
  end.

Definition key_value (l : list ascii) : option (string * string) :=
  match cln.break_at "=" l with
  | Some (k, v) => Some (string_of_list_ascii (trim k), string_of_list_ascii (trim v))
  | None => None
  end.

Fixpoint add_key (kv : string * string) (f : ini.File) : ini.File :=
  match f with
  | [] => [ini.mkSection "DEFAULT" [kv]]
  | [s] => [ini.mkSection (ini.Name s) (ini.Keys s ++ [kv])%list]
  | s :: f' => s :: add_key kv f'
  end.

Fixpoint parse_lines (ls : list (list ascii)) (f : ini.File) : ini.File :=
  match ls with
  | [] => f
  | l :: ls' =>
      let l := trim l in
      match header l with
      | Some name => parse_lines ls' (f ++ [ini.mkSection name []])%list
      | None =>
          match key_value l with
          | Some kv => parse_lines ls' (add_key kv f)
          | None => parse_lines ls' f
          end
      end
  end.

Definition parse (content : string) : result ini.File :=
  Ok (parse_lines (strings.split_on "010"%char (list_ascii_of_string content))
                  [ini.mkSection "DEFAULT" []]).

#[export] Instance env : Env := {|
  URL := string * string;
  tf_ToSourceURL := λ src _,
    if strings.HasPrefix src "bad:" then Err (External "tf" src)
    else Ok ("git::" ++ src, EmptyString);
  URL_String := λ u, if String.eqb (snd u) "" then fst u else fst u ++ "?" ++ snd u;
  URL_withRawQuery := λ q u, (fst u, q);
  cas_New := λ src o d t,
    if strings.HasPrefix src "bad:" then (Err (External "cas" src), t) else (Ok tt, t);
  cas_Clone := λ src o, fetch (cas.Dir o) src;
  getter_Get := fetch;
  ini_parse := parse
|}.

(** A machine with a local module directory [/srv/mod] that is a git work
    tree with two remotes and no remote named [origin], and an empty
    [/tmp]. *)
Definition two_remotes : string :=
  "[remote " ++ module.dquote ++ "upstream" ++ module.dquote ++ "]" ++ nl ++
  "url = https://example.org/upstream.git" ++ nl ++
  "[remote " ++ module.dquote ++ "fork" ++ module.dquote ++ "]" ++ nl ++
  "url = https://example.org/fork.git" ++ nl.

Definition disk0 : tree :=
  list_to_map
    [ (["srv"], Dir); (["srv"; "mod"], Dir); (["srv"; "mod"; "main.tf"], File "# module");
      (["srv"; "mod"; ".git"], Dir);
      (["srv"; "mod"; ".git"; "HEAD"], File head_file);
      (["srv"; "mod"; ".git"; "config"], File two_remotes);
      (["tmp"], Dir); (["home"], Dir) ].

Definition world0 : World := mkWorld disk0 (Some "/home") [].

(** The same machine after an earlier, complete clone of
    [https://down.example/infra.git] into [/tmp/catalog]. *)
Definition disk1 : tree :=
  <[ ["tmp"; "catalog"; "infra.git"; module.cloneCompleteSentinel] := File EmptyString ]>
    (checkout "/tmp/catalog/infra.git" "https://down.example/infra.git" None
       (<[ ["tmp"; "catalog"] := Dir ]> disk0)).

Definition world1 : World := mkWorld disk1 (Some "/home") [].

(** The machine after a clone of [https://example.org/infra.git] into
    [/tmp/catalog] that was interrupted: the directory and one file are
    there, the marker is not. *)
Definition disk2 : tree :=
  <[ ["tmp"; "catalog"; "infra.git"; "main.tf"] := File "# half" ]>
    (<[ ["tmp"; "catalog"; "infra.git"] := Dir ]>
       (<[ ["tmp"; "catalog"] := Dir ]> disk0)).

Definition world2 : World := mkWorld disk2 (Some "/home") [].

(** A network with one repository served at
    [https://example.org/infra.git]; [https://down.example/infra.git] cannot
    be reached and every other URL names no repository. *)
Definition infra : cln.Repository :=
  cln.mkRepository
    [ cln.mkRef "4f2c9a1b7e3d5f60812a4c6e9b0d3f5a7c1e8b24" "HEAD";
      cln.mkRef "4f2c9a1b7e3d5f60812a4c6e9b0d3f5a7c1e8b24" "refs/heads/main" ]
    [ ("4f2c9a1b7e3d5f60812a4c6e9b0d3f5a7c1e8b24",
       [ cln.mkEntry "README.md" "blob" "100644" "9d1e4a7c3b5f2068a1c4e7b9d0f3a5c7e1b8d246" ]) ].

Definition net0 : cln.Net :=
  cln.mkNet
    (λ url, if String.eqb url "https://example.org/infra.git" then cln.Serving infra
            else if String.eqb url "https://down.example/infra.git" then cln.Unreachable
            else cln.Misnamed)
    ∅.

(** A content store that already holds an entry. *)
Definition store0 : cas.Store :=
  cas.mkStore "/cache" {[ "/cache/be/benchmark0" := "old bytes" ]} ∅ true.

End fake.

(** ** Vocabulary of the statements *)

Definition LF : string := String "010"%char EmptyString.

Definition no_slash (s : string) : bool :=
  forallb (regexp.not_chr "/") (list_ascii_of_string s).

Definition is_hex (a : ascii) : bool :=
  let n := nat_of_ascii a in
  Nat.leb 48 n && Nat.leb n 57 || Nat.leb 97 n && Nat.leb n 102.

(** A raw object hash: one or more lower-case hexadecimal digits. *)
Definition is_hash (s : string) : bool :=
  negb (String.eqb s EmptyString) && forallb is_hex (list_ascii_of_string s).

Definition first_byte_free (runes : list (list ascii)) (a : ascii) : bool :=
  forallb (λ r, match r with b :: _ => negb (Ascii.eqb a b) | [] => false end) runes.


(** *** Runs and traces *)

(** [wp m Φ s w]: running [m] from the receiver [s] and the world [w]
    extends the trace by some calls [evs], and [Φ] holds of these calls,
    the result, the receiver and the world at the end. *)
Definition wp {S A} (m : M (S:=S) A)
    (Φ : list event → result A → S → World → Prop) (s : S) (w : World) : Prop :=
  ∃ evs, trace (m s w).2 = (trace w ++ evs)%list
         ∧ Φ evs (m s w).1.1 (m s w).1.2 (m s w).2.

Definition is_create (c : call) : bool :=
  match c with CallCreate _ => true | _ => false end.

(** The calls that fetch from the source: the CAS engine and go-getter. *)
Definition is_cas (c : call) : bool :=
  match c with CallCasNew _ _ | CallCasClone _ _ => true | _ => false end.

Definition is_getter (c : call) : bool :=
  match c with CallToSourceURL _ | CallGetterGet _ _ => true | _ => false end.

Definition is_fetch (c : call) : bool := is_cas c || is_getter c.

(** Every call succeeded. *)
Definition all_ok (evs : list event) : Prop := Forall (λ ev, ev_err ev = None) evs.

(** Every call but the last succeeded, and the last failed with [e0]. *)
Fixpoint stops_with (evs : list event) (e0 : error) : Prop :=
  match evs with
  | [] => False
  | [ev] => ev_err ev = Some e0
  | ev :: evs' => ev_err ev = None ∧ stops_with evs' e0
  end.

(** [os.Create] is called at most once, as the last call. *)
Fixpoint create_only_last (evs : list event) : Prop :=
  match evs with
  | [] => True
  | [ev] => True
  | ev :: evs' => is_create (ev_call ev) = false ∧ create_only_last evs'
  end.

(** No [os.Create] succeeded. *)
Definition none_created (evs : list event) : Prop :=
  Forall (λ ev, is_create (ev_call ev) = true → ev_err ev ≠ None) evs.

(** The last call is an [os.Create] of [p] that succeeded. *)
Definition ends_with_create (p : string) (evs : list event) : Prop :=
  ∃ pre, evs = (pre ++ [Ev (CallCreate p) None])%list.

(** The path of the completion marker of a repository. *)
Definition marker (repo : module.Repo) : string :=
  filepath.Join [module.path repo; module.cloneCompleteSentinel].

(** The shape of the calls of one run of [clone] that returned [r]. *)
Definition commit_discipline (evs : list event) (r : result unit) : Prop :=
  create_only_last evs
  ∧ match r with
    | Ok _ => all_ok evs
    | Err e =>
        none_created evs
        ∧ ∃ e0, stops_with evs e0 ∧ (e = e0 ∨ e = WithStack e0)
    end.

Definition fetched (evs : list event) : bool :=
  existsb (λ ev, is_fetch (ev_call ev)) evs.

(** [f] creates nothing at the resolved path [rp]. *)
Definition keeps_absent (rp : list string) (d : option string)
    (f : option string → tree → result unit * tree) : Prop :=
  ∀ t, lookup_path t rp = None → lookup_path (f d t).2 rp = None.

(** The fetching calls of [performClone] on [repo] create nothing at [rp]. *)
Definition fetch_keeps_absent `{E : Env} (repo : module.Repo) (d : option string)
    (rp : list string) : Prop :=
  let o := cas.mkOptions (module.path repo) EmptyString module.includedGitFiles in
  ∀ src, keeps_absent rp d (cas_New src o)
         ∧ keeps_absent rp d (cas_Clone src o)
         ∧ keeps_absent rp d (getter_Get (module.path repo) src).

(** The two states a target directory may be in when a fetch starts: absent,
    or complete (it holds the marker).  The third state, partial, is the
    directory being there without the marker. *)
Definition absent_or_complete (w : World) (repo : module.Repo) : Prop :=
  files.FileExists w (module.path repo) = false
  ∨ files.FileExists w (marker repo) = true.

Definition partial (w : World) (repo : module.Repo) : bool :=
  files.FileExists w (module.path repo) && negb (files.FileExists w (marker repo)).

(** Nothing is left at or below the path [p]. *)
Definition gone (w : World) (p : string) : Prop :=
  ∀ rp q, resolve (cwd w) p = Some rp → rp `prefix_of` q → lookup_path (fs w) q = None.

(** The source a fetching call is given. *)
Definition call_source (c : call) : option string :=
  match c with
  | CallCasNew src _ | CallCasClone src _ | CallToSourceURL src => Some src
  | _ => None
  end.

(** Every fetching call of [evs] that names a source names [src]. *)
Definition sources_are (src : string) (evs : list event) : Prop :=
  Forall (λ ev, ∀ s, call_source (ev_call ev) = Some s → s = src) evs.

(** The world [w] with the calls [evs] added to its trace. *)
Definition traced (w : World) (evs : list event) : World :=
  mkWorld (fs w) (cwd w) (trace w ++ evs).

(** The error [NewRepo] returns for a [cas://] source without the
    experiment. *)
Definition cas_not_allowed : error :=
  Errorf "cas:// protocol is not allowed without using the `cas` experiment. Please enable the experiment and try again." [].

Definition no_getter (evs : list event) : Prop :=
  Forall (λ ev, is_getter (ev_call ev) = false) evs.

(** The name of the section of the remote [origin]. *)
Definition remote_origin : string :=
  "remote " ++ module.dquote ++ "origin" ++ module.dquote.

(** A section name the loop of [parseRemoteURL] takes for a remote. *)
Definition is_remote (name : string) : bool := strings.HasPrefix name "remote".

Definition gitConfigPath (repo : module.Repo) : string :=
  filepath.Join [module.path repo; ".git"; "config"].

(** A reference as the protocol can carry it: a non-empty hash and name
    without tab or newline. *)
Definition plain (s : string) : bool :=
  negb (String.eqb s EmptyString)
  && forallb (λ a, negb (Ascii.eqb a cln.tab) && negb (Ascii.eqb a cln.newline))
             (list_ascii_of_string s).

Definition wf_ref (r : cln.GitRef) : bool := plain (cln.Hash r) && plain (cln.Ref r).

(** ** Vocabulary of the further properties *)

(** No class of [r] accepts the byte [a]. *)
Fixpoint avoids (a : ascii) (r : regexp.re) : bool :=
  match r with
  | regexp.Bol | regexp.Eol => true
  | regexp.Cls p | regexp.Star _ p => negb (p a)
  | regexp.Opt r1 | regexp.Grp _ r1 => avoids a r1
  | regexp.Cat r1 r2 => avoids a r1 && avoids a r2
  end.

(** [r] has no capture group. *)
Fixpoint no_grp (r : regexp.re) : bool :=
  match r with
  | regexp.Grp _ _ => false
  | regexp.Opt r1 => no_grp r1
  | regexp.Cat r1 r2 => no_grp r1 && no_grp r2
  | _ => true
  end.

(** Every match of [r] ends at the end of the text. *)
Fixpoint ends_eol (r : regexp.re) : bool :=
  match r with
  | regexp.Eol => true
  | regexp.Cat _ r2 => ends_eol r2
  | regexp.Grp _ r1 => ends_eol r1
  | _ => false
  end.

(** The shape of the two patterns of the package with one group:
    [^.*?(c+)T] for a class [c] and a tail [T]. *)
Definition anchored_group (p : ascii → bool) (tail : regexp.re) : regexp.re :=
  regexp.Cat regexp.Bol
    (regexp.Cat (regexp.Star false regexp.dot)
      (regexp.Cat (regexp.Grp 1 (regexp.Cat (regexp.Cls p) (regexp.Star true p))) tail)).

Definition all_bytes (p : ascii → bool) (s : string) : bool :=
  forallb p (list_ascii_of_string s).

(** The tail [[^/]*?(?:\.git)?$] of the pattern of the repository name. *)
Definition repoNameTail : regexp.re :=
  regexp.Cat (regexp.Star false (regexp.not_chr "/"))
    (regexp.Cat
       (regexp.Opt
          (regexp.Cat (regexp.Cls (regexp.chr "."))
             (regexp.Cat (regexp.Cls (module.chr_i "g" "G"))
                (regexp.Cat (regexp.Cls (module.chr_i "i" "I"))
                            (regexp.Cls (module.chr_i "t" "T"))))))
       regexp.Eol).


(** The machine of [fake.world0] with [data] as the content of the [HEAD]
    file of [/srv/mod]. *)
Definition world_head (data : string) : World :=
  mkWorld (<[ ["srv"; "mod"; ".git"; "HEAD"] := File data ]> fake.disk0) (Some "/home") [].

(** The repository of the local module directory [/srv/mod]. *)
Definition local_repo : module.Repo :=
  module.mkRepo "/srv/mod" "/srv/mod" EmptyString EmptyString false false.

(** No call of the CAS engine. *)
Definition no_cas (evs : list event) : Prop :=
  Forall (λ ev, is_cas (ev_call ev) = false) evs.

(** The error [parseRemoteURL] returns for a directory without a git
    config. *)
Definition not_a_repository (p : string) : error :=
  Errorf "the specified path %q is not a git repository (no .git/config file found)" [p].

(** A host of the family [name]: [name.x] with [x] non-empty and without a
    newline. *)
Definition in_family (name host : string) : Prop :=
  ∃ x, host = name ++ "." ++ x ∧ x ≠ EmptyString ∧ all_bytes regexp.dot x = true.

(** The hosts [ModuleURL] has a URL scheme for. *)
Definition supported_host (host : string) : Prop :=
  host = module.bitbucketHost ∨ host = module.azuredevHost
  ∨ in_family "github" host ∨ in_family "gitlab" host.

(** A parser that returns the same remote for every URL. *)
Definition parsed_as (host full : string) : string → result vcsurl.VCS :=
  λ _, Ok (vcsurl.mkVCS host full).

(** The machine of [fake.world0] with [content] as the git config of
    [/srv/mod]. *)
Definition world_config (content : string) : World :=
  mkWorld (<[ ["srv"; "mod"; ".git"; "config"] := File content ]> fake.disk0)
          (Some "/home") [].

(** A git config without a remote. *)
Definition config_no_remote : string :=
  "[core]" ++ LF ++ "bare = false" ++ LF.
(** * Properties *)

(** ** Strings and lists of bytes *)

Lemma list_of_string_app (s1 s2 : string) :
  list_ascii_of_string (s1 ++ s2) = (list_ascii_of_string s1 ++ list_ascii_of_string s2)%list.
Proof. induction s1 as [|a s1 IH]; simpl; [reflexivity | now rewrite IH]. Qed.

Lemma list_of_string_nil (s : string) : list_ascii_of_string s = [] → s = EmptyString.
Proof. destruct s; [reflexivity | discriminate]. Qed.

(** ** The matcher on the pattern of [.git/HEAD] *)

Section HeadPattern.
Let ns : ascii → bool := regexp.not_chr "/".

(** The group [([^/]+)] followed by [$]. *)
Let tail_re : regexp.re :=
  regexp.Cat (regexp.Grp 1 (regexp.Cat (regexp.Cls ns) (regexp.Star true ns))) regexp.Eol.

Lemma star_greedy_to_end (k : regexp.cont) pos rest c r :
  forallb ns rest = true →
  k (pos + List.length rest) [] c = Some r →
  regexp.star_greedy ns k pos rest c = Some r.
Proof.
  revert pos. induction rest as [|a rest IH]; intros pos Hall Hk; simpl in *.
  - now rewrite Nat.add_0_r in Hk.
  - apply andb_prop in Hall as [Ha Hall]. rewrite Ha.
    rewrite (IH (S pos) Hall); [reflexivity|].
    now replace (S pos + List.length rest) with (pos + S (List.length rest)) by lia.
Qed.

Lemma star_greedy_stuck (k : regexp.cont) pos rest c :
  forallb ns rest = false →
  (∀ pos' a rest', k pos' (a :: rest') c = None) →
  regexp.star_greedy ns k pos rest c = None.
Proof.
  intros Hall Hk. revert pos. induction rest as [|a rest IH]; intros pos; simpl in *.
  - discriminate.
  - destruct (ns a) eqn:Ha; simpl in Hall.
    + rewrite (IH Hall). apply Hk.
    + apply Hk.
Qed.

Lemma tail_matches pos rest c :
  rest ≠ [] → forallb ns rest = true →
  regexp.rmatch tail_re regexp.accept pos rest c
  = Some (pos + List.length rest, (1, (pos, pos + List.length rest)) :: c).
Proof.
  intros Hne Hall. destruct rest as [|a rest]; [congruence|].
  simpl in Hall. apply andb_prop in Hall as [Ha Hall].
  unfold tail_re. simpl. rewrite Ha.
  erewrite star_greedy_to_end; [reflexivity | exact Hall |].
  simpl. unfold regexp.accept. do 3 f_equal; [lia | do 2 f_equal; lia].
Qed.

Lemma tail_fails pos rest c :
  forallb ns rest = false →
  regexp.rmatch tail_re regexp.accept pos rest c = None.
Proof.
  intros Hall. destruct rest as [|a rest]; [discriminate|].
  unfold tail_re. simpl. destruct (ns a) eqn:Ha; [|reflexivity].
  simpl in Hall. rewrite Ha in Hall. simpl in Hall.
  apply star_greedy_stuck; [exact Hall | reflexivity].
Qed.

Lemma tail_fails_nil pos c : regexp.rmatch tail_re regexp.accept pos [] c = None.
Proof. reflexivity. Qed.

(** The lazy [.*?] stops at the first offset from which the rest of the
    pattern matches. *)
Lemma star_lazy_first (k : regexp.cont) pre rest pos c r :
  forallb regexp.dot pre = true →
  (∀ p1 p2, pre = (p1 ++ p2)%list → p2 ≠ [] →
            k (pos + List.length p1) (p2 ++ rest)%list c = None) →
  k (pos + List.length pre) rest c = Some r →
  regexp.star_lazy regexp.dot k pos (pre ++ rest)%list c = Some r.
Proof.
  revert pos. induction pre as [|a pre IH]; intros pos Hdot Hfail Hk.
  - simpl in *. rewrite Nat.add_0_r in Hk.
    destruct rest; simpl; now rewrite Hk.
  - simpl in Hdot. apply andb_prop in Hdot as [Ha Hdot].
    assert (H0 : k pos (a :: pre ++ rest)%list c = None).
    { specialize (Hfail [] (a :: pre) eq_refl). simpl in Hfail.
      rewrite Nat.add_0_r in Hfail. apply Hfail. discriminate. }
    simpl. rewrite H0, Ha.
    apply IH; [exact Hdot | |].
    + intros p1 p2 -> Hp2.
      replace (S pos + List.length p1) with (pos + List.length (a :: p1)) by (simpl; lia).
      now apply (Hfail (a :: p1) p2).
    + now replace (S pos + List.length pre) with (pos + List.length (a :: pre)) by (simpl; lia).
Qed.

Lemma forallb_ns_suffix_slash (p2 rest : list ascii) pre' :
  (pre' ++ ["/"%char])%list = p2 → forallb ns (p2 ++ rest)%list = false.
Proof.
  intros <-. rewrite !forallb_app. simpl.
  now rewrite andb_false_r.
Qed.

(** A text [pre/branch] whose [pre] has no newline and whose [branch] is
    non-empty and has no slash: group 1 is [branch]. *)
Lemma head_pattern_branch (pre branch : list ascii) :
  forallb regexp.dot pre = true →
  branch ≠ [] → forallb ns branch = true →
  regexp.search (regexp.syntax module.gitHeadBranchNameReg) 0 (pre ++ "/"%char :: branch)%list
  = Some (0, List.length (pre ++ "/"%char :: branch)%list,
          [(1, (S (List.length pre), List.length (pre ++ "/"%char :: branch)%list))]).
Proof.
  intros Hdot Hne Hall.
  change (pre ++ "/"%char :: branch)%list with (pre ++ ["/"%char] ++ branch)%list.
  rewrite app_assoc.
  unfold regexp.search.
  assert (Hm : regexp.rmatch (regexp.syntax module.gitHeadBranchNameReg) regexp.accept 0
                 ((pre ++ ["/"%char]) ++ branch)%list []
               = Some (List.length ((pre ++ ["/"%char]) ++ branch)%list,
                       [(1, (S (List.length pre),
                             List.length ((pre ++ ["/"%char]) ++ branch)%list))])).
  { cbn [module.gitHeadBranchNameReg regexp.syntax regexp.rmatch Nat.eqb].
    fold ns. 
    change (λ pos' rest' c',
              regexp.rmatch (regexp.Grp 1 (regexp.Cat (regexp.Cls ns) (regexp.Star true ns)))
                (λ pos'0 rest'0 c'0, regexp.rmatch regexp.Eol regexp.accept pos'0 rest'0 c'0)
                pos' rest' c')
      with (regexp.rmatch tail_re regexp.accept).
    apply (star_lazy_first (regexp.rmatch tail_re regexp.accept)).
    - rewrite forallb_app, Hdot. reflexivity.
    - intros p1 p2 Hsplit Hp2. apply tail_fails.
      destruct (exists_last Hp2) as (p2' & z & ->).
      rewrite app_assoc in Hsplit. apply app_inj_tail in Hsplit as [_ <-].
      rewrite <- app_assoc. rewrite forallb_app.
      replace (forallb ns ([("/")%char] ++ branch)%list) with false by reflexivity.
      apply andb_false_r.
    - rewrite tail_matches by assumption.
      rewrite !length_app. simpl. repeat f_equal; lia. }
  destruct ((pre ++ ["/"%char]) ++ branch)%list eqn:Htext; rewrite Hm; reflexivity.
Qed.

(** A non-empty text without slash: group 1 is the whole text. *)
Lemma head_pattern_whole (text : list ascii) :
  text ≠ [] → forallb ns text = true →
  regexp.search (regexp.syntax module.gitHeadBranchNameReg) 0 text
  = Some (0, List.length text, [(1, (0, List.length text))]).
Proof.
  intros Hne Hall.
  assert (Hm : regexp.rmatch (regexp.syntax module.gitHeadBranchNameReg) regexp.accept 0 text []
               = Some (List.length text, [(1, (0, List.length text))])).
  { cbn [module.gitHeadBranchNameReg regexp.syntax regexp.rmatch Nat.eqb].
    fold ns.
    change (λ pos' rest' c',
              regexp.rmatch (regexp.Grp 1 (regexp.Cat (regexp.Cls ns) (regexp.Star true ns)))
                (λ pos'0 rest'0 c'0, regexp.rmatch regexp.Eol regexp.accept pos'0 rest'0 c'0)
                pos' rest' c')
      with (regexp.rmatch tail_re regexp.accept).
    pose proof (tail_matches 0 text [] Hne Hall) as Ht. simpl in Ht.
    destruct text; [congruence|].
    unfold regexp.star_lazy. now rewrite Ht. }
  unfold regexp.search. destruct text; rewrite Hm; reflexivity.
Qed.
End HeadPattern.

Lemma find_head_branch (pre branch : string) :
  forallb regexp.dot (list_ascii_of_string pre) = true →
  branch ≠ EmptyString → no_slash branch = true →
  regexp.FindStringSubmatch module.gitHeadBranchNameReg (pre ++ "/" ++ branch)
  = [pre ++ "/" ++ branch; branch].
Proof.
  intros Hdot Hne Hns. unfold regexp.FindStringSubmatch.
  rewrite !list_of_string_app. cbn [list_ascii_of_string app].
  rewrite head_pattern_branch; [| exact Hdot | | exact Hns].
  2:{ intros H. apply Hne. now apply list_of_string_nil. }
  cbn [regexp.NumSubexp module.gitHeadBranchNameReg seq map regexp.get_cap Nat.eqb].
  unfold regexp.slice. f_equal.
  - rewrite Nat.sub_0_r, drop_0, firstn_all.
    change (list_ascii_of_string pre ++ "/"%char :: list_ascii_of_string branch)%list
      with (list_ascii_of_string pre ++ list_ascii_of_string ("/" ++ branch))%list.
    rewrite <- list_of_string_app. apply string_of_list_ascii_of_string.
  - f_equal.
    change (list_ascii_of_string pre ++ "/"%char :: list_ascii_of_string branch)%list
      with (list_ascii_of_string pre ++ ["/"%char] ++ list_ascii_of_string branch)%list.
    rewrite app_assoc.
    replace (S (List.length (list_ascii_of_string pre)))
      with (List.length (list_ascii_of_string pre ++ ["/"%char])%list)
      by (rewrite length_app; simpl; lia).
    rewrite drop_app_length.
    rewrite (length_app _ (list_ascii_of_string branch)).
    replace (_ + _ - _) with (List.length (list_ascii_of_string branch)) by lia.
    rewrite firstn_all. apply string_of_list_ascii_of_string.
Qed.

Lemma find_head_whole (s : string) :
  s ≠ EmptyString → no_slash s = true →
  regexp.FindStringSubmatch module.gitHeadBranchNameReg s = [s; s].
Proof.
  intros Hne Hns. unfold regexp.FindStringSubmatch.
  rewrite head_pattern_whole; [| | exact Hns].
  2:{ intros H. apply Hne. now apply list_of_string_nil. }
  cbn [regexp.NumSubexp module.gitHeadBranchNameReg seq map regexp.get_cap Nat.eqb].
  unfold regexp.slice. rewrite Nat.sub_0_r, drop_0, firstn_all.
  now rewrite string_of_list_ascii_of_string.
Qed.

(** ** [strings.TrimSpace] on a hash *)

Lemma strip_one_none runes a l :
  first_byte_free runes a = true → strings.strip_one runes (a :: l) = None.
Proof.
  induction runes as [|r runes IH]; simpl; [reflexivity|].
  intros H. apply andb_prop in H as [Hr H].
  destruct r as [|b r]; [discriminate|]. simpl.
  apply negb_true_iff in Hr. rewrite Hr. now apply IH.
Qed.

Lemma hex_not_space a :
  is_hex a = true →
  first_byte_free strings.space_runes a = true
  ∧ first_byte_free (map (@rev ascii) strings.space_runes) a = true.
Proof.
  destruct a as [[] [] [] [] [] [] [] []]; intros H;
    first [ discriminate H | split; vm_compute; reflexivity ].
Qed.

Lemma trim_left_fuel_stop runes n a l :
  strings.strip_one runes (a :: l) = None →
  strings.trim_left_fuel runes n (a :: l) = a :: l.
Proof. intros H. destruct n; simpl; [reflexivity | now rewrite H]. Qed.

Lemma hex_no_slash s : forallb is_hex (list_ascii_of_string s) = true → no_slash s = true.
Proof.
  unfold no_slash. induction (list_ascii_of_string s) as [|a l IH]; simpl; [reflexivity|].
  intros H. apply andb_prop in H as [Ha H]. rewrite (IH H), andb_true_r.
  destruct a as [[] [] [] [] [] [] [] []]; first [ discriminate Ha | reflexivity ].
Qed.

Lemma rev_hex_head (l : list ascii) :
  l ≠ [] → forallb is_hex l = true → ∃ b l', rev l = b :: l' ∧ is_hex b = true.
Proof.
  intros Hne Hall. destruct (rev l) as [|b l'] eqn:Hrev.
  - apply (f_equal (@rev ascii)) in Hrev. rewrite rev_involutive in Hrev. now subst.
  - exists b, l'. split; [reflexivity|].
    rewrite forallb_forall in Hall. apply Hall. apply in_rev. rewrite Hrev. now left.
Qed.

Lemma trim_right_hex (l : list ascii) :
  l ≠ [] → forallb is_hex l = true → strings.trim_right l = l.
Proof.
  intros Hne Hall. unfold strings.trim_right.
  destruct (rev_hex_head l Hne Hall) as (b & l' & Hrev & Hb).
  rewrite Hrev, trim_left_fuel_stop.
  - now rewrite <- Hrev, rev_involutive.
  - apply strip_one_none, hex_not_space, Hb.
Qed.

Lemma trim_left_hex (l k : list ascii) :
  l ≠ [] → forallb is_hex l = true → strings.trim_left (l ++ k)%list = (l ++ k)%list.
Proof.
  intros Hne Hall. destruct l as [|a l]; [congruence|].
  simpl in Hall. apply andb_prop in Hall as [Ha _].
  unfold strings.trim_left. simpl app.
  apply trim_left_fuel_stop, strip_one_none, hex_not_space, Ha.
Qed.

Lemma TrimSpace_hash (s : string) : is_hash s = true → strings.TrimSpace s = s.
Proof.
  unfold is_hash. intros H. apply andb_prop in H as [Hne Hall].
  assert (Hl : list_ascii_of_string s ≠ []).
  { intros H. apply list_of_string_nil in H. subst. discriminate. }
  unfold strings.TrimSpace.
  rewrite <- (app_nil_r (list_ascii_of_string s)) at 1.
  rewrite trim_left_hex, app_nil_r, trim_right_hex by assumption.
  apply string_of_list_ascii_of_string.
Qed.

Lemma TrimSpace_hash_newline (s : string) :
  is_hash s = true → strings.TrimSpace (s ++ LF) = s.
Proof.
  unfold is_hash. intros H. apply andb_prop in H as [Hne Hall].
  assert (Hl : list_ascii_of_string s ≠ []).
  { intros H. apply list_of_string_nil in H. subst. discriminate. }
  unfold strings.TrimSpace. rewrite list_of_string_app.
  rewrite trim_left_hex by assumption.
  unfold strings.trim_right. rewrite rev_app_distr, length_app.
  cbn [LF list_ascii_of_string rev app List.length].
  rewrite Nat.add_comm. cbn [Nat.add strings.trim_left_fuel].
  change (strings.strip_one (map (@rev ascii) strings.space_runes)
            ("010"%char :: rev (list_ascii_of_string s)))
    with (Some (rev (list_ascii_of_string s))).
  destruct (rev_hex_head _ Hl Hall) as (b & l' & Hrev & Hb).
  rewrite Hrev, trim_left_fuel_stop.
  - rewrite <- Hrev, rev_involutive. apply string_of_list_ascii_of_string.
  - apply strip_one_none, hex_not_space, Hb.
Qed.

(** ** [parseBranchName] *)

Section ParseBranchName.
Import module.

Lemma parseBranchName_run repo w data m0 m1 ms :
  files.ReadFileAsString w (gitHeadfile repo) = Ok data →
  regexp.FindStringSubmatch gitHeadBranchNameReg data = m0 :: m1 :: ms →
  parseBranchName repo w = (Ok tt, set_BranchName (strings.TrimSpace m1) repo, w).
Proof.
  intros Hread Hfind. unfold parseBranchName, bind, get, world.
  rewrite Hread, Hfind. reflexivity.
Qed.

(** C9.  When [.git/HEAD] reads [ref: refs/heads/<branch>] with a
    non-empty [<branch>] that has no slash, [parseBranchName] succeeds and
    sets [BranchName] to [<branch>] with its white space trimmed; when the
    file holds only a raw hash (with or without the final newline), it
    succeeds and [BranchName] is that hash. *)
Theorem parseBranchName_head repo w data :
  files.ReadFileAsString w (gitHeadfile repo) = Ok data →
  (∀ branch,
      data = "ref: refs/heads/" ++ branch →
      branch ≠ EmptyString → no_slash branch = true →
      parseBranchName repo w
      = (Ok tt, set_BranchName (strings.TrimSpace branch) repo, w))
  ∧ (∀ hash,
      is_hash hash = true →
      data = hash ∨ data = hash ++ LF →
      parseBranchName repo w = (Ok tt, set_BranchName hash repo, w)).
Proof.
  intros Hread. split.
  - intros branch -> Hne Hns.
    eapply parseBranchName_run; [exact Hread|].
    apply (find_head_branch "ref: refs/heads" branch); [reflexivity | exact Hne | exact Hns].
  - intros hash Hhash [-> | ->].
    + replace (set_BranchName hash repo)
        with (set_BranchName (strings.TrimSpace hash) repo)
        by now rewrite TrimSpace_hash.
      eapply parseBranchName_run; [exact Hread|].
      apply find_head_whole.
      * intros ->. discriminate.
      * apply hex_no_slash. unfold is_hash in Hhash.
        now apply andb_prop in Hhash as [_ ?].
    + replace (set_BranchName hash repo)
        with (set_BranchName (strings.TrimSpace (hash ++ LF)) repo)
        by now rewrite TrimSpace_hash_newline.
      eapply parseBranchName_run; [exact Hread|].
      apply find_head_whole.
      * destruct hash; discriminate.
      * unfold no_slash. rewrite list_of_string_app, forallb_app.
        unfold is_hash in Hhash. apply andb_prop in Hhash as [_ Hall].
        apply hex_no_slash in Hall. unfold no_slash in Hall. now rewrite Hall.
Qed.

(** A [<branch>] that is empty leaves nothing for the group to match:
    [parseBranchName] fails. *)
Lemma parseBranchName_empty_branch repo w :
  files.ReadFileAsString w (gitHeadfile repo) = Ok "ref: refs/heads/" →
  parseBranchName repo w
  = (Err (Errorf "could not get branch name for repo %q" [path repo]), repo, w).
Proof.
  intros Hread. unfold parseBranchName, bind, get, world. rewrite Hread. reflexivity.
Qed.
End ParseBranchName.

Lemma parseBranchName_head_witness :
  let repo := module.mkRepo "/srv/mod" "/srv/mod" EmptyString EmptyString false false in
  files.ReadFileAsString fake.world0 (module.gitHeadfile repo) = Ok fake.head_file
  ∧ module.parseBranchName repo fake.world0
    = (Ok tt, module.set_BranchName "main" repo, fake.world0).
Proof.
  split; [vm_compute; reflexivity|].
  refine (proj1 (parseBranchName_head _ fake.world0 fake.head_file _)
                ("main" ++ LF) _ _ _).
  - vm_compute; reflexivity.
  - reflexivity.
  - discriminate.
  - reflexivity.
Defined.

(** ** Rules of the weakest precondition *)

Section WpRules.
Context {S : Type}.
Implicit Types (s : S) (w : World).

Lemma wp_ret {A} (a : A) Φ s w : Φ [] (Ok a) s w → wp (ret a) Φ s w.
Proof. intros H. exists []. simpl. now rewrite app_nil_r. Qed.

Lemma wp_fail {A} e (Φ : list event → result A → S → World → Prop) s w :
  Φ [] (Err e) s w → wp (fail e) Φ s w.
Proof. intros H. exists []. simpl. now rewrite app_nil_r. Qed.

Lemma wp_get Φ s w : Φ [] (Ok s) s w → wp get Φ s w.
Proof. intros H. exists []. simpl. now rewrite app_nil_r. Qed.

Lemma wp_world Φ s w : Φ [] (Ok w) s w → wp (S:=S) world Φ s w.
Proof. intros H. exists []. simpl. now rewrite app_nil_r. Qed.

Lemma wp_modify f Φ s w : Φ [] (Ok tt) (f s) w → wp (modify f) Φ s w.
Proof. intros H. exists []. simpl. now rewrite app_nil_r. Qed.

Lemma wp_lib {A} (c : call) (f : option string → tree → result A * tree) Φ s w :
  (∀ r t, f (cwd w) (fs w) = (r, t) →
          Φ [Ev c (result_err r)] r s
            (mkWorld t (cwd w) (trace w ++ [Ev c (result_err r)]))) →
  wp (lib c f) Φ s w.
Proof.
  intros H. unfold wp, lib. destruct (f (cwd w) (fs w)) as [r t] eqn:Hf.
  exists [Ev c (result_err r)]. simpl. split; [reflexivity|]. now apply H.
Qed.

Lemma wp_wrap_new {A} (m : M A) Φ s w :
  wp m (λ evs r s1 w1,
          Φ evs (match r with Ok a => Ok a | Err e => Err (WithStack e) end) s1 w1) s w →
  wp (wrap_new m) Φ s w.
Proof.
  intros (evs & Ht & H). exists evs. unfold wrap_new.
  destruct (m s w) as [[[a|e] s1] w1]; simpl in *; auto.
Qed.

Lemma wp_bind {A B} (m : M A) (k : A → M B) Φ s w :
  wp m (λ evs1 r s1 w1,
          match r with
          | Ok a => wp (k a) (λ evs2 r2 s2 w2, Φ (evs1 ++ evs2)%list r2 s2 w2) s1 w1
          | Err e => Φ evs1 (Err e) s1 w1
          end) s w →
  wp (bind m k) Φ s w.
Proof.
  intros (evs1 & Ht & H). unfold wp, bind.
  destruct (m s w) as [[[a|e] s1] w1]; simpl in *.
  - destruct H as (evs2 & Ht2 & H2). exists (evs1 ++ evs2)%list.
    split; [|exact H2]. now rewrite Ht2, Ht, app_assoc.
  - exists evs1. auto.
Qed.

Lemma wp_mono {A} (m : M A) (Φ Ψ : list event → result A → S → World → Prop) s w :
  wp m Φ s w → (∀ evs r s1 w1, Φ evs r s1 w1 → Ψ evs r s1 w1) → wp m Ψ s w.
Proof. intros (evs & Ht & H) HΦ. exists evs. auto. Qed.

Lemma wp_run {A} (m : M A) Φ s w r s1 w1 :
  wp m Φ s w → m s w = (r, s1, w1) →
  ∃ evs, trace w1 = (trace w ++ evs)%list ∧ Φ evs r s1 w1.
Proof. intros (evs & Ht & H) Hm. rewrite Hm in *. simpl in *. eauto. Qed.
End WpRules.

Ltac wp_step :=
  first
    [ apply wp_bind | apply wp_wrap_new | apply wp_get | apply wp_world
    | apply wp_modify | apply wp_ret | apply wp_fail
    | match goal with
      | |- wp (if ?b then _ else _) _ _ _ => destruct b eqn:?
      | |- wp (match ?x with _ => _ end) _ _ _ => destruct x eqn:?
      end ]; cbv beta iota.

(** ** The calls of [clone] *)

Ltac wp_lib_cases :=
  apply wp_lib; intros [?|?] ? _; cbv beta iota.

Ltac unfold_clone :=
  unfold module.clone, module.resolveCloneURL, module.handleLocalDir,
    module.prepareCloneDirectory, module.extractRepoName,
    module.shouldCleanupIncompleteClone, module.performClone,
    os.Getwd, os.MkdirAll, os.RemoveAll, os.Create, filepath_Abs.

Ltac trace_leaf :=
  unfold commit_discipline, all_ok, none_created, ends_with_create, fetched, marker;
  cbn [app stops_with create_only_last is_create is_fetch is_cas is_getter
       ev_call ev_err existsb orb result_err];
  repeat match goal with
         | |- _ ∧ _ => split
         | |- Forall _ [] => constructor
         | |- Forall _ (_ :: _) => constructor
         | |- ∃ e0, _ ∧ (_ = e0 ∨ _) =>
             eexists; split;
             [ repeat split; reflexivity
             | first [left; reflexivity | right; reflexivity] ]
         | |- ∃ pre, ?l = (pre ++ [_])%list => exists (removelast l); reflexivity
         | |- _ → _ => intro
         end;
  cbn [ev_call ev_err is_create] in *;
  try solve [ reflexivity | congruence | exact I | discriminate ].

Section CloneTrace.
Context `{E : Env}.

Lemma clone_commit_discipline repo w :
  wp module.clone
     (λ evs r repo' _,
        commit_discipline evs r
        ∧ (r = Ok tt → fetched evs = true → ends_with_create (marker repo') evs))
     repo w.
Proof.
  unfold_clone.
  repeat first [ wp_step | wp_lib_cases ]; trace_leaf.
Qed.
End CloneTrace.

Section CloneCommit.
Context `{E : Env}.

Lemma FileExists_lookup w p rp :
  resolve (cwd w) p = Some rp →
  files.FileExists w p = match lookup_path (fs w) rp with Some _ => true | None => false end.
Proof. intros H. unfold files.FileExists, stat. now rewrite H. Qed.

Lemma FileExists_unresolved w p : resolve (cwd w) p = None → files.FileExists w p = false.
Proof. intros H. unfold files.FileExists, stat. now rewrite H. Qed.

(** A failed [os.Create] leaves the file system as it was. *)
Lemma Create_failure_frame {S} p (s : S) w e s1 w1 :
  os.Create p s w = (Err e, s1, w1) → fs w1 = fs w ∧ cwd w1 = cwd w ∧ s1 = s.
Proof.
  unfold os.Create, lib. intros H.
  destruct (resolve (cwd w) p) as [[|x rp]|]; [|destruct (lookup_path _ _) as [[]|];
    [destruct (fs w !! _) as [[]|]|..]|]; simpl in H; inversion H; subst; auto.
Qed.

Lemma performClone_failure_no_marker opts repo w e repo' w' :
  module.performClone opts repo w = (Err e, repo', w') →
  files.FileExists w (marker repo) = false →
  (∀ rp, resolve (cwd w) (marker repo) = Some rp → fetch_keeps_absent repo (cwd w) rp) →
  files.FileExists w' (marker repo) = false.
Proof.
  intros Hrun Habs Hframe.
  destruct (resolve (cwd w) (marker repo)) as [rp|] eqn:Hres.
  2:{ assert (cwd w' = cwd w) as Hcwd.
      { revert Hrun. unfold module.performClone, bind, get, modify, wrap_new, ret, lib.
        destruct (module.useCAS repo).
        - destruct (cas_New _ _ _ _) as [[[]|] ?]; [|intros [= <- <- <-]; reflexivity].
          destruct (cas_Clone _ _ _ _) as [[[]|] ?]; [|intros [= <- <- <-]; reflexivity].
          destruct (os.Create _ _ _) as [[[[]|] ?] ?] eqn:Hc; intros [= <- <- <-].
          apply Create_failure_frame in Hc as (_ & Hc & _). exact Hc.
        - destruct (tf_ToSourceURL _ _) as [u|]; [|intros [= <- <- <-]; reflexivity].
          destruct (getter_Get _ _ _ _) as [[[]|] ?]; [|intros [= <- <- <-]; reflexivity].
          destruct (os.Create _ _ _) as [[[[]|] ?] ?] eqn:Hc; intros [= <- <- <-].
          apply Create_failure_frame in Hc as (_ & Hc & _). exact Hc. }
      apply FileExists_unresolved. now rewrite Hcwd. }
  specialize (Hframe rp eq_refl).
  rewrite (FileExists_lookup _ _ _ Hres) in Habs.
  destruct (lookup_path (fs w) rp) eqn:Hl; [discriminate|].
  assert (cwd w' = cwd w ∧ lookup_path (fs w') rp = None) as [Hcwd Hl'].
  { revert Hrun. unfold module.performClone, bind, get, modify, wrap_new, ret, lib.
    destruct (module.useCAS repo).
    - destruct (Hframe (module.SourceURL opts)) as (Hn & Hc & _).
      specialize (Hn _ Hl).
      destruct (cas_New _ _ _ _) as [[[]|] t1]; [|intros [= <- <- <-]; auto].
      specialize (Hc _ Hn). simpl in Hc.
      destruct (cas_Clone _ _ _ _) as [[[]|] t2]; [|intros [= <- <- <-]; auto].
      destruct (os.Create _ _ _) as [[[[]|] ?] ?] eqn:Hcr; intros [= <- <- <-].
      apply Create_failure_frame in Hcr as (-> & -> & _). auto.
    - destruct (tf_ToSourceURL _ _) as [u|]; [|intros [= <- <- <-]; auto].
      destruct (Hframe (strings.Trim1 (URL_String (URL_withRawQuery "ref=HEAD" u)) "/"))
        as (_ & _ & Hg).
      specialize (Hg _ Hl). simpl in Hg.
      destruct (getter_Get _ _ _ _) as [[[]|] t2]; [|intros [= <- <- <-]; auto].
      destruct (os.Create _ _ _) as [[[[]|] ?] ?] eqn:Hcr; intros [= <- <- <-].
      apply Create_failure_frame in Hcr as (-> & -> & _). auto. }
  rewrite (FileExists_lookup w' _ rp) by now rewrite Hcwd.
  now rewrite Hl'.
Qed.
End CloneCommit.

(** C1 (as amended).  In every run of [clone], [os.Create] of the completion
    marker is called at most once and as the last call; when the run
    succeeds every call succeeded, and a run that fetched ends with the
    creation of the marker; when it fails, every call before the failing one
    succeeded, the error returned is the error of the failing call (wrapped
    by [errors.New] for the calls of [os] and [filepath]), and no marker was
    created.  For the fetch itself: when [performClone] fails on a directory
    that held no marker and the fetching calls create none, there is no
    marker afterwards. *)
Theorem clone_marker_commit `{E : Env} (repo : module.Repo) (w : World) r repo' w' :
  module.clone repo w = (r, repo', w') →
  (∃ evs, trace w' = (trace w ++ evs)%list
      ∧ create_only_last evs
      ∧ (r = Ok tt → all_ok evs ∧ (fetched evs = true → ends_with_create (marker repo') evs))
      ∧ (∀ e, r = Err e →
              none_created evs ∧ ∃ e0, stops_with evs e0 ∧ (e = e0 ∨ e = WithStack e0)))
  ∧ (∀ opts repo1 w1 e repo2 w2,
        module.performClone opts repo1 w1 = (Err e, repo2, w2) →
        files.FileExists w1 (marker repo1) = false →
        (∀ rp, resolve (cwd w1) (marker repo1) = Some rp →
               fetch_keeps_absent repo1 (cwd w1) rp) →
        files.FileExists w2 (marker repo1) = false).
Proof.
  intros Hrun. split.
  - destruct (wp_run _ _ _ _ _ _ _ (clone_commit_discipline repo w) Hrun)
      as (evs & Ht & [Hlast Hshape] & Hend).
    exists evs. split; [exact Ht|]. split; [exact Hlast|]. split.
    + intros ->. split; [exact Hshape | now apply Hend].
    + intros e ->. exact Hshape.
  - intros opts repo1 w1 e repo2 w2. apply performClone_failure_no_marker.
Qed.

Lemma put_absent (d : option string) (p : string) (nd : node) (t : tree)
    (k rp : list string) :
  resolve d p = Some k → k ≠ rp → lookup_path t rp = None →
  lookup_path (fake.put d p nd t) rp = None.
Proof.
  intros Hk Hne Habs. unfold fake.put. rewrite Hk.
  destruct rp as [|x rp]; [discriminate Habs|].
  simpl in *. now rewrite lookup_insert_ne.
Qed.

(** The stand-in fetch into [/tmp/catalog/infra.git] creates no marker. *)
Lemma fake_fetch_keeps_absent :
  let repo := module.mkRepo "https://down.example/infra.git" "/tmp/catalog/infra.git"
                            EmptyString EmptyString false false in
  fetch_keeps_absent (E:=fake.env) repo (Some "/home")
    ["tmp"; "catalog"; "infra.git"; ".catalog-clone-complete"].
Proof.
  intros repo src.
  assert (Hfetch : ∀ s, keeps_absent
                          ["tmp"; "catalog"; "infra.git"; ".catalog-clone-complete"]
                          (Some "/home") (fake.fetch "/tmp/catalog/infra.git" s)).
  { intros s t Ht. unfold fake.fetch. destruct (fake.down s); [exact Ht|].
    cbn [snd]. unfold fake.checkout.
    repeat (eapply put_absent; [vm_compute; reflexivity | discriminate |]).
    exact Ht. }
  split; [|split].
  - intros t Ht. cbn. destruct (strings.HasPrefix src "bad:"); exact Ht.
  - apply Hfetch.
  - apply Hfetch.
Qed.

(** A fetch that fails in the stand-in world, from a machine with nothing
    cloned yet: the calls stop at the fetch and no marker is there. *)
Lemma clone_marker_commit_witness :
  let repo := module.mkRepo "https://down.example/infra.git" "/tmp/catalog"
                            EmptyString EmptyString false false in
  let run := module.clone (E:=fake.env) repo fake.world0 in
  let repo1 := module.mkRepo "https://down.example/infra.git" "/tmp/catalog/infra.git"
                             EmptyString EmptyString false false in
  let opts := module.mkCloneOptions "https://down.example/infra.git" "/tmp/catalog" in
  (∃ evs, trace run.2 = (trace fake.world0 ++ evs)%list
          ∧ create_only_last evs
          ∧ none_created evs
          ∧ files.FileExists run.2 (marker run.1.2) = false)
  ∧ files.FileExists fake.world0 (marker repo1) = false
  ∧ files.FileExists (module.performClone (E:=fake.env) opts repo1 fake.world0).2
                     (marker repo1) = false.
Proof.
  cbv zeta.
  set (repo := module.mkRepo "https://down.example/infra.git" "/tmp/catalog"
                             EmptyString EmptyString false false).
  set (repo1 := module.mkRepo "https://down.example/infra.git" "/tmp/catalog/infra.git"
                              EmptyString EmptyString false false).
  set (opts := module.mkCloneOptions "https://down.example/infra.git" "/tmp/catalog").
  destruct (module.clone (E:=fake.env) repo fake.world0) as [[r repo'] w'] eqn:Hrun.
  destruct (clone_marker_commit _ _ _ _ _ Hrun) as [(evs & Ht & Hlast & _ & Herr) Hfs].
  assert (Hr : r = Err (External "fetch" "git::https://down.example/infra.git?ref=HEAD")
               ∧ files.FileExists w' (marker repo') = false).
  { vm_compute in Hrun. injection Hrun as <- <- <-. split; vm_compute; reflexivity. }
  destruct Hr as [Hr Hm]. split; [|split].
  - exists evs. split; [exact Ht|]. split; [exact Hlast|].
    split; [exact (proj1 (Herr _ Hr)) | exact Hm].
  - vm_compute. reflexivity.
  - destruct (module.performClone (E:=fake.env) opts repo1 fake.world0)
      as [[r2 repo2] w2] eqn:Hperf.
    assert (Hr2 : r2 = Err (External "fetch" "git::https://down.example/infra.git?ref=HEAD"))
      by (vm_compute in Hperf; now injection Hperf as <- _ _).
    subst r2. cbn [snd].
    refine (Hfs opts repo1 fake.world0 _ repo2 w2 Hperf _ _).
    + vm_compute. reflexivity.
    + intros rp Hrp. vm_compute in Hrp. injection Hrp as <-.
      exact fake_fetch_keeps_absent.
Defined.

(** C1 as stated fails: a clone into a directory that an earlier clone had
    completed fails at the fetch, and the marker of the earlier clone is
    still there. *)
Lemma clone_failed_marker_stays :
  let repo := module.mkRepo "https://down.example/infra.git" "/tmp/catalog"
                            EmptyString EmptyString false false in
  let run := module.clone (E:=fake.env) repo fake.world1 in
  run.1.1 = Err (External "fetch" "git::https://down.example/infra.git?ref=HEAD")
  ∧ files.FileExists fake.world1 (marker run.1.2) = true
  ∧ files.FileExists run.2 (marker run.1.2) = true.
Proof. vm_compute. repeat split. Qed.

(** ** Directory hygiene *)

Lemma remove_subtree_gone (rp q : list string) (t : tree) :
  rp `prefix_of` q → remove_subtree rp t !! q = None.
Proof.
  intros Hpre. unfold remove_subtree. apply map_lookup_filter_None. right.
  intros x _ Hn. apply Hn. exact Hpre.
Qed.

Lemma prefix_of_cons_not_nil (x : string) (rp q : list string) :
  (x :: rp) `prefix_of` q → q ≠ [].
Proof. intros [k ->]. discriminate. Qed.

Section Hygiene.
Import module.

Lemma RemoveAll_success {S} p (s : S) w s1 w1 :
  os.RemoveAll p s w = (Ok tt, s1, w1) →
  files.FileExists w p = true →
  cwd w1 = cwd w ∧ files.FileExists w1 p = false ∧ gone w1 p.
Proof.
  unfold os.RemoveAll, lib, files.FileExists, stat. intros Hrun Hex.
  destruct (String.eqb p "") eqn:Hp.
  { apply String.eqb_eq in Hp. subst p. discriminate Hex. }
  destruct (resolve (cwd w) p) as [[|x rp]|] eqn:Hres; try discriminate.
  injection Hrun as <- <-. simpl. rewrite Hres. split; [reflexivity|]. split.
  - simpl. now rewrite remove_subtree_gone.
  - intros rp' q. simpl. rewrite Hres. intros [= <-] Hpre.
    destruct q as [|y q]; [now apply prefix_of_cons_not_nil in Hpre|].
    simpl. now apply remove_subtree_gone.
Qed.

Lemma prepareCloneDirectory_result opts repo w repo' w' :
  prepareCloneDirectory opts repo w = (Ok tt, repo', w') →
  ∃ w1,
    os.MkdirAll (TargetPath opts) repo w = (Ok tt, repo, w1)
    ∧ cloneURL repo' = cloneURL repo ∧ useCAS repo' = useCAS repo
    ∧ (if partial w1 repo'
       then files.FileExists w' (path repo') = false ∧ gone w' (path repo')
       else fs w' = fs w1)
    ∧ absent_or_complete w' repo'.
Proof.
  unfold prepareCloneDirectory.
  unfold bind at 1. unfold wrap_new.
  destruct (os.MkdirAll (TargetPath opts) repo w) as [[[[]|e] s1] w1] eqn:Hmk;
    [|discriminate].
  assert (s1 = repo) as ->.
  { revert Hmk. unfold os.MkdirAll, lib.
    destruct (let '(_, _) := _ in _) eqn:?.
    destruct (resolve _ _); [destruct (mkdirs _ _ _) as [? []]|]; congruence. }
  intros Hrun. exists w1. split; [reflexivity|].
  assert (∃ name,
    (let* _ := modify (set_path (filepath.Join [TargetPath opts; name])) in
     let* cleanup := shouldCleanupIncompleteClone in
     if cleanup then
       let* repo0 := get in
       let* _ := wrap_new (os.RemoveAll (path repo0)) in ret tt
     else ret tt) repo w1 = (Ok tt, repo', w')) as [name Hk].
  { revert Hrun. unfold extractRepoName, bind at 1, get, bind at 1.
    destruct (regexp.FindStringSubmatch _ _) as [|m0 [|m1 ms]];
      [eexists; exact Hrun | eexists; exact Hrun |].
    destruct (negb (String.eqb m1 "")); eexists; exact Hrun. }
  clear Hrun. revert Hk.
  set (repo1 := set_path (filepath.Join [TargetPath opts; name]) repo).
  cbv [bind modify shouldCleanupIncompleteClone get world ret wrap_new].
  fold repo1.
  change (files.FileExists w1 (path repo1)
          && negb (files.FileExists w1 (filepath.Join [path repo1; cloneCompleteSentinel])))
    with (partial w1 repo1).
  destruct (partial w1 repo1) eqn:Hpart.
  - destruct (os.RemoveAll (path repo1) repo1 w1) as [[[[]|e] s2] w2] eqn:Hrm;
      [|intros [=]].
    intros [= <- <-].
    assert (s2 = repo1) as ->.
    { revert Hrm. unfold os.RemoveAll, lib.
      destruct (let '(_, _) := _ in _) eqn:?.
      destruct (String.eqb _ _); [congruence|].
      destruct (resolve _ _) as [[|]|]; congruence. }
    rewrite Hpart.
    unfold partial in Hpart. apply andb_prop in Hpart as [Hex _].
    apply RemoveAll_success in Hrm as (Hcwd & Hgone1 & Hgone); [|exact Hex].
    split; [reflexivity|]. split; [reflexivity|]. split; [now split|].
    unfold absent_or_complete. now left.
  - intros [= <- <-]. rewrite Hpart.
    split; [reflexivity|]. split; [reflexivity|]. split; [reflexivity|].
    unfold partial in Hpart. unfold absent_or_complete.
    destruct (files.FileExists w1 (path repo1)); [|now left].
    simpl in Hpart. apply negb_false_iff in Hpart. now right.
Qed.
End Hygiene.

Lemma clone_network_steps `{E : Env} (repo : module.Repo) (w : World) u repo0 w0 :
  module.resolveCloneURL repo w = (Ok u, repo0, w0) →
  files.IsDir w0 u = false →
  module.clone repo w
  = (let opts := module.mkCloneOptions u (module.path repo0) in
     let* _ := module.prepareCloneDirectory opts in
     module.performClone opts) repo0 w0.
Proof.
  intros Hres Hdir. unfold module.clone. unfold bind at 1. rewrite Hres.
  unfold bind at 1, world. rewrite Hdir. reflexivity.
Qed.

(** C2.  In a clone whose source is not a local directory, the fetch
    ([performClone]) runs only after [prepareCloneDirectory] succeeded, and
    then from a world in which the target directory is absent or complete:
    if it was there without the marker once [TargetPath] was made, it has
    been removed with everything below it; otherwise the file system is as
    [os.MkdirAll] left it.  When the preparation fails the clone returns
    its error and fetches nothing. *)
Theorem network_clone_starts_clean `{E : Env} (repo : module.Repo) (w : World) u repo0 w0 :
  module.resolveCloneURL repo w = (Ok u, repo0, w0) →
  files.IsDir w0 u = false →
  let opts := module.mkCloneOptions u (module.path repo0) in
  (∀ repo1 w1,
      module.prepareCloneDirectory opts repo0 w0 = (Ok tt, repo1, w1) →
      module.clone repo w = module.performClone opts repo1 w1
      ∧ absent_or_complete w1 repo1
      ∧ ∃ wm, os.MkdirAll (module.path repo0) repo0 w0 = (Ok tt, repo0, wm)
              ∧ if partial wm repo1
                then files.FileExists w1 (module.path repo1) = false
                     ∧ gone w1 (module.path repo1)
                else fs w1 = fs wm)
  ∧ (∀ e repo1 w1,
      module.prepareCloneDirectory opts repo0 w0 = (Err e, repo1, w1) →
      module.clone repo w = (Err e, repo1, w1)).
Proof.
  intros Hres Hdir opts.
  pose proof (clone_network_steps repo w u repo0 w0 Hres Hdir) as Hclone.
  cbv zeta in Hclone. fold opts in Hclone.
  split.
  - intros repo1 w1 Hprep. split.
    + rewrite Hclone. unfold bind. now rewrite Hprep.
    + destruct (prepareCloneDirectory_result _ _ _ _ _ Hprep) as (wm & Hmk & _ & _ & Hp & Hac).
      split; [exact Hac|]. exists wm. split; [exact Hmk | exact Hp].
  - intros e repo1 w1 Hprep. rewrite Hclone. unfold bind. now rewrite Hprep.
Qed.

(** The interrupted clone of the stand-in world: the half-written
    directory is purged before the fetch. *)
Lemma network_clone_starts_clean_witness :
  let repo := module.mkRepo "https://example.org/infra.git" "/tmp/catalog"
                            EmptyString EmptyString false false in
  let opts := module.mkCloneOptions "https://example.org/infra.git" "/tmp/catalog" in
  let run := module.prepareCloneDirectory opts repo fake.world2 in
  files.FileExists fake.world2 "/tmp/catalog/infra.git/main.tf" = true
  ∧ files.FileExists run.2 "/tmp/catalog/infra.git/main.tf" = false
  ∧ absent_or_complete run.2 run.1.2.
Proof.
  cbv zeta.
  destruct (module.prepareCloneDirectory
              (module.mkCloneOptions "https://example.org/infra.git" "/tmp/catalog")
              (module.mkRepo "https://example.org/infra.git" "/tmp/catalog"
                             EmptyString EmptyString false false) fake.world2)
    as [[r repo1] w1] eqn:Hprep.
  assert (Hr : r = Ok tt) by (vm_compute in Hprep; now injection Hprep as <- _ _).
  subst r.
  split; [vm_compute; reflexivity|]. split.
  - vm_compute in Hprep. injection Hprep as <- <-. vm_compute. reflexivity.
  - refine (proj1 (proj2 (proj1 (network_clone_starts_clean (E:=fake.env)
              (module.mkRepo "https://example.org/infra.git" "/tmp/catalog"
                             EmptyString EmptyString false false)
              fake.world2 "https://example.org/infra.git"
              (module.mkRepo "https://example.org/infra.git" "/tmp/catalog"
                             EmptyString EmptyString false false)
              fake.world2 _ _) _ _ Hprep))).
    + reflexivity.
    + vm_compute. reflexivity.
Defined.

(** ** Source resolution and the local-directory bypass *)

Section Resolve.
Context `{E : Env}.
Import module.

Lemma resolveCloneURL_given repo w :
  cloneURL repo ≠ EmptyString →
  resolveCloneURL repo w = (Ok (cloneURL repo), repo, w).
Proof.
  intros Hne. unfold resolveCloneURL, bind, get, ret.
  destruct (String.eqb_spec (cloneURL repo) ""); [contradiction | reflexivity].
Qed.

Lemma resolveCloneURL_empty repo w d :
  cloneURL repo = EmptyString → cwd w = Some d →
  resolveCloneURL repo w = (Ok d, repo, traced w [Ev CallGetwd None]).
Proof.
  intros He Hd. unfold resolveCloneURL, bind, get, ret, wrap_new, os.Getwd, lib.
  rewrite He. cbn [String.eqb]. cbv beta. unfold traced. rewrite Hd. reflexivity.
Qed.

Lemma resolveCloneURL_frame repo w u repo0 w0 :
  resolveCloneURL repo w = (Ok u, repo0, w0) →
  repo0 = repo ∧ fs w0 = fs w ∧ cwd w0 = cwd w
  ∧ ∃ evs, trace w0 = (trace w ++ evs)%list
           ∧ Forall (λ ev, ev_call ev = CallGetwd) evs.
Proof.
  unfold resolveCloneURL, bind, get, ret, wrap_new, os.Getwd, lib.
  destruct (String.eqb (cloneURL repo) "").
  - destruct (cwd w); intros [= <- <- <-]; repeat split; simpl.
    exists [Ev CallGetwd None]. split; [reflexivity | repeat constructor].
  - intros [= <- <- <-]. repeat split. exists []. now rewrite app_nil_r.
Qed.

Lemma handleLocalDir_result u repo w r repo' w' :
  handleLocalDir u repo w = (r, repo', w') →
  fs w' = fs w ∧ cwd w' = cwd w
  ∧ (∃ evs, trace w' = (trace w ++ evs)%list
            ∧ Forall (λ ev, ev_call ev = CallAbs u) evs)
  ∧ (r = Ok tt →
     cloneURL repo' = cloneURL repo ∧ useCAS repo' = useCAS repo
     ∧ if filepath.IsAbs u then path repo' = u
       else filepath.Abs (cwd w) u = Ok (path repo')).
Proof.
  unfold handleLocalDir, bind, modify, ret, wrap_new, filepath_Abs, lib.
  destruct (filepath.IsAbs u) eqn:Habs; simpl.
  - intros [= <- <- <-]. repeat split; auto. exists []. now rewrite app_nil_r.
  - destruct (filepath.Abs (cwd w) u) as [a|e] eqn:HA; intros [= <- <- <-]; simpl;
      (split; [reflexivity|]; split; [reflexivity|]; split;
       [eexists [_]; split; [reflexivity | repeat constructor]|]).
    + intros _. repeat split; reflexivity.
    + intros [=].
Qed.
End Resolve.

(** C5 (as amended).  When the source denotes an existing local directory,
    [clone] makes no fetching call and writes nothing, the marker included:
    the file system is as before, so the directory is complete afterwards
    exactly when it held a marker before; on success [path] is that
    directory, made absolute when it was relative. *)
Theorem local_clone_bypass `{E : Env} (repo : module.Repo) (w : World) u repo0 w0 r repo' w' :
  module.resolveCloneURL repo w = (Ok u, repo0, w0) →
  files.IsDir w0 u = true →
  module.clone repo w = (r, repo', w') →
  fs w' = fs w ∧ cwd w' = cwd w
  ∧ (∃ evs, trace w' = (trace w ++ evs)%list
            ∧ fetched evs = false
            ∧ Forall (λ ev, is_create (ev_call ev) = false) evs)
  ∧ files.FileExists w' (marker repo') = files.FileExists w (marker repo')
  ∧ (r = Ok tt →
     if filepath.IsAbs u then module.path repo' = u
     else filepath.Abs (cwd w) u = Ok (module.path repo')).
Proof.
  intros Hres Hdir. unfold module.clone. unfold bind at 1. rewrite Hres.
  unfold bind at 1, world. rewrite Hdir. intros Hloc.
  apply resolveCloneURL_frame in Hres as (-> & Hfs0 & Hcwd0 & evs0 & Ht0 & Hev0).
  apply handleLocalDir_result in Hloc as (Hfs & Hcwd & (evs1 & Ht1 & Hev1) & Hok).
  assert (Hfs' : fs w' = fs w) by congruence.
  assert (Hcwd' : cwd w' = cwd w) by congruence.
  split; [exact Hfs'|]. split; [exact Hcwd'|]. split; [|split].
  - exists (evs0 ++ evs1)%list. split; [now rewrite Ht1, Ht0, app_assoc|].
    split.
    + unfold fetched. rewrite existsb_app. apply orb_false_iff. split.
      * clear -Hev0. induction Hev0 as [|ev l Hc _ IH]; [reflexivity|].
        simpl. now rewrite Hc, IH.
      * clear -Hev1. induction Hev1 as [|ev l Hc _ IH]; [reflexivity|].
        simpl. now rewrite Hc, IH.
    + apply Forall_app. split.
      * eapply Forall_impl; [exact Hev0|]. now intros ev ->.
      * eapply Forall_impl; [exact Hev1|]. now intros ev ->.
  - unfold files.FileExists, stat. now rewrite Hfs', Hcwd'.
  - intros Hr. destruct (Hok Hr) as (_ & _ & Hp). now rewrite <- Hcwd0.
Qed.

Lemma local_clone_bypass_witness :
  let repo := module.mkRepo "../srv/mod" "/tmp/catalog" EmptyString EmptyString false false in
  let run := module.clone (E:=fake.env) repo fake.world0 in
  files.IsDir fake.world0 "../srv/mod" = true
  ∧ fs run.2 = fs fake.world0
  ∧ files.FileExists run.2 (marker run.1.2) = files.FileExists fake.world0 (marker run.1.2).
Proof.
  cbv zeta.
  set (repo := module.mkRepo "../srv/mod" "/tmp/catalog" EmptyString EmptyString false false).
  destruct (module.clone (E:=fake.env) repo fake.world0) as [[r repo'] w'] eqn:Hrun.
  split; [vm_compute; reflexivity|].
  destruct (local_clone_bypass (E:=fake.env) repo fake.world0 "../srv/mod" repo fake.world0
              r repo' w' eq_refl eq_refl Hrun) as (Hfs & _ & _ & Hm & _).
  split; [exact Hfs | exact Hm].
Defined.

(** C5 as stated fails: the clone of the local directory [/srv/mod]
    succeeds and the directory holds no completion marker afterwards. *)
Lemma local_clone_leaves_no_marker :
  let repo := module.mkRepo "/srv/mod" "/tmp/catalog" EmptyString EmptyString false false in
  let run := module.clone (E:=fake.env) repo fake.world0 in
  files.IsDir fake.world0 "/srv/mod" = true
  ∧ run.1.1 = Ok tt
  ∧ module.path run.1.2 = "/srv/mod"
  ∧ files.FileExists run.2 (marker run.1.2) = false.
Proof. vm_compute. repeat split. Qed.

(** ** The source of the fetch *)

Ltac sources_leaf :=
  unfold sources_are, no_getter;
  cbn [app];
  repeat match goal with
         | |- _ ∧ _ => split
         | |- Forall _ [] => constructor
         | |- Forall _ (_ :: _) => constructor
         end;
  cbn [ev_call call_source is_getter module.SourceURL module.useCAS
       module.set_path module.set_cloneURL];
  try solve [ reflexivity | intros; congruence ].

Section Sources.
Context `{E : Env}.
Import module.

Lemma network_sources opts repo w :
  wp (let* _ := prepareCloneDirectory opts in performClone opts)
     (λ evs _ _ _, sources_are (SourceURL opts) evs) repo w.
Proof.
  unfold_clone.
  repeat first [ wp_step | wp_lib_cases ]; sources_leaf.
Qed.

Lemma local_sources u src repo w :
  wp (handleLocalDir u) (λ evs _ _ _, sources_are src evs) repo w.
Proof.
  unfold_clone.
  repeat first [ wp_step | wp_lib_cases ]; sources_leaf.
Qed.

Lemma clone_from_cwd repo w d :
  cloneURL repo = EmptyString → cwd w = Some d →
  clone repo w
  = (if files.IsDir w d then handleLocalDir d
     else let opts := mkCloneOptions d (path repo) in
          let* _ := prepareCloneDirectory opts in performClone opts)
      repo (traced w [Ev CallGetwd None]).
Proof.
  intros He Hd. unfold clone. unfold bind at 1.
  rewrite (resolveCloneURL_empty repo w d He Hd).
  unfold bind at 1, world.
  change (files.IsDir (traced w [Ev CallGetwd None]) d) with (files.IsDir w d).
  destruct (files.IsDir w d); reflexivity.
Qed.
End Sources.

(** C8.  When the clone URL is empty and the process has a working
    directory [d], source resolution returns [d], and the rest of [clone]
    runs on [d]: it is the directory taken as the result when it is a local
    directory, and otherwise the source of the directory preparation and of
    every fetching call. *)
Theorem empty_cloneURL_uses_cwd `{E : Env} (repo : module.Repo) (w : World) (d : string) :
  module.cloneURL repo = EmptyString →
  cwd w = Some d →
  module.resolveCloneURL repo w = (Ok d, repo, traced w [Ev CallGetwd None])
  ∧ module.clone repo w
    = (if files.IsDir w d then module.handleLocalDir d
       else let opts := module.mkCloneOptions d (module.path repo) in
            let* _ := module.prepareCloneDirectory opts in module.performClone opts)
        repo (traced w [Ev CallGetwd None])
  ∧ ∀ r repo' w',
      module.clone repo w = (r, repo', w') →
      (∃ evs, trace w' = (trace w ++ Ev CallGetwd None :: evs)%list ∧ sources_are d evs)
      ∧ (files.IsDir w d = true → r = Ok tt →
         if filepath.IsAbs d then module.path repo' = d
         else filepath.Abs (cwd w) d = Ok (module.path repo')).
Proof.
  intros He Hd. split; [now apply resolveCloneURL_empty|].
  split; [now apply clone_from_cwd|].
  intros r repo' w'. rewrite (clone_from_cwd repo w d He Hd).
  destruct (files.IsDir w d) eqn:Hdir; intros Hrun.
  - split.
    + destruct (wp_run _ _ _ _ _ _ _ (local_sources d d repo _) Hrun) as (evs & Ht & Hs).
      exists evs. split; [|exact Hs]. rewrite Ht. simpl. now rewrite <- app_assoc.
    + intros _ Hr. apply handleLocalDir_result in Hrun as (_ & _ & _ & Hp).
      now destruct (Hp Hr) as (_ & _ & ?).
  - split; [|discriminate].
    destruct (wp_run _ _ _ _ _ _ _
                (network_sources (module.mkCloneOptions d (module.path repo)) repo _) Hrun)
      as (evs & Ht & Hs).
    exists evs. split; [|exact Hs]. rewrite Ht. simpl. now rewrite <- app_assoc.
Qed.

(** With an empty clone URL in the stand-in world, whose working directory
    [/home] is a directory: the clone resolves to [/home] and takes it as
    the result. *)
Lemma empty_cloneURL_uses_cwd_witness :
  let repo := module.mkRepo EmptyString "/tmp/catalog" EmptyString EmptyString false false in
  cwd fake.world0 = Some "/home"
  ∧ module.resolveCloneURL repo fake.world0
    = (Ok "/home", repo, traced fake.world0 [Ev CallGetwd None])
  ∧ module.path (module.clone (E:=fake.env) repo fake.world0).1.2 = "/home".
Proof.
  cbv zeta.
  set (repo := module.mkRepo EmptyString "/tmp/catalog" EmptyString EmptyString false false).
  destruct (empty_cloneURL_uses_cwd (E:=fake.env) repo fake.world0 "/home" eq_refl eq_refl)
    as (Hres & _ & Hrun).
  split; [reflexivity|]. split; [exact Hres|].
  destruct (module.clone (E:=fake.env) repo fake.world0) as [[r repo'] w'] eqn:Hc.
  destruct (Hrun r repo' w' eq_refl) as [_ Hp].
  assert (Hr : r = Ok tt) by (vm_compute in Hc; now injection Hc as <- _ _).
  exact (Hp eq_refl Hr).
Defined.

(** ** The [cas://] prefix *)

Section CasPrefix.
Context `{E : Env}.
Import module.

Lemma parseRemoteURL_frame repo w r repo' w' :
  parseRemoteURL repo w = (r, repo', w') →
  w' = w ∧ cloneURL repo' = cloneURL repo ∧ useCAS repo' = useCAS repo
  ∧ path repo' = path repo.
Proof.
  unfold parseRemoteURL, bind, get, world, fail, modify, ret.
  destruct (negb (files.FileExists w _)); [intros [= <- <- <-]; auto|].
  destruct (files.ReadFileAsString w _); [|intros [= <- <- <-]; auto].
  destruct (ini_parse _); [|intros [= <- <- <-]; auto].
  destruct (String.eqb _ _); intros [= <- <- <-]; auto.
Qed.

Lemma parseBranchName_frame repo w r repo' w' :
  parseBranchName repo w = (r, repo', w') →
  w' = w ∧ cloneURL repo' = cloneURL repo ∧ useCAS repo' = useCAS repo
  ∧ path repo' = path repo.
Proof.
  unfold parseBranchName, bind, get, world, fail, modify, ret.
  destruct (files.ReadFileAsString w _); [|intros [= <- <- <-]; auto].
  destruct (regexp.FindStringSubmatch _ _) as [|m0 [|m1 ms]]; intros [= <- <- <-]; auto.
Qed.

(** With [useCAS] set, [clone] never calls go-getter and leaves the clone
    URL as it is. *)
Lemma clone_cas_no_getter repo w :
  useCAS repo = true →
  wp clone (λ evs _ repo' _,
              no_getter evs ∧ useCAS repo' = true ∧ cloneURL repo' = cloneURL repo)
     repo w.
Proof.
  intros Hcas. unfold_clone.
  repeat first
    [ progress (cbn [useCAS set_path set_cloneURL]; rewrite ?Hcas; cbv beta iota)
    | wp_step | wp_lib_cases ];
    sources_leaf; assumption.
Qed.

Lemma prepareCloneDirectory_trace opts repo w :
  wp (prepareCloneDirectory opts) (λ _ _ _ _, True) repo w.
Proof. unfold_clone. repeat first [ wp_step | wp_lib_cases ]; exact I. Qed.

Lemma lib_run {S A : Type} (c : call) (f : option string → tree → result A * tree)
    (s : S) w r s1 w1 :
  lib c f s w = (r, s1, w1) →
  s1 = s ∧ cwd w1 = cwd w
  ∧ trace w1 = (trace w ++ [Ev c (result_err r)])%list
  ∧ f (cwd w) (fs w) = (r, fs w1).
Proof.
  unfold lib. destruct (f (cwd w) (fs w)) as [r0 t]. intros [= <- <- <-]. auto.
Qed.

(** A successful fetch through the CAS engine: its three calls. *)
Lemma performClone_cas opts repo w repo' w' :
  useCAS repo = true →
  performClone opts repo w = (Ok tt, repo', w') →
  repo' = repo
  ∧ trace w' = (trace w ++ [Ev (CallCasNew (SourceURL opts) (path repo)) None;
                            Ev (CallCasClone (SourceURL opts) (path repo)) None;
                            Ev (CallCreate (marker repo)) None])%list.
Proof.
  intros Hcas. unfold performClone, bind, get, wrap_new, ret, os.Create.
  rewrite Hcas.
  destruct (lib (CallCasNew _ _) _ repo w) as [[[[]|] s1] w1] eqn:H1; [|intros [=]].
  apply lib_run in H1 as (-> & _ & Ht1 & _).
  destruct (lib (CallCasClone _ _) _ repo w1) as [[[[]|] s2] w2] eqn:H2; [|intros [=]].
  apply lib_run in H2 as (-> & _ & Ht2 & _).
  destruct (lib (CallCreate _) _ repo w2) as [[[[]|] s3] w3] eqn:H3; intros [= <- <-].
  apply lib_run in H3 as (-> & _ & Ht3 & _).
  split; [reflexivity|]. rewrite Ht3, Ht2, Ht1. cbn [result_err].
  now rewrite <- !app_assoc.
Qed.
End CasPrefix.

(** C10 (as amended).  For a clone URL that starts with [cas://]: without
    the experiment [NewRepo] returns an error, builds no repository and
    leaves the world untouched; with it, the prefix is stripped, the
    repository is marked [useCAS], go-getter is never called, and whenever
    the stripped URL is non-empty and not an existing local directory a
    successful [NewRepo] has fetched through the CAS engine from the
    stripped URL. *)
Theorem NewRepo_cas_prefix `{E : Env} (url tempDir : string) (sym : bool) (w : World) :
  strings.HasPrefix url "cas://" = true →
  let u := strings.TrimPrefix url "cas://" in
  module.NewRepo url tempDir sym false w = (Err cas_not_allowed, w)
  ∧ ∀ r w',
      module.NewRepo url tempDir sym true w = (r, w') →
      ∃ evs, trace w' = (trace w ++ evs)%list
             ∧ no_getter evs
             ∧ ∀ repo', r = Ok repo' →
                 module.cloneURL repo' = u ∧ module.useCAS repo' = true
                 ∧ (u ≠ EmptyString → files.IsDir w u = false →
                    In (Ev (CallCasNew u (module.path repo')) None) evs
                    ∧ In (Ev (CallCasClone u (module.path repo')) None) evs).
Proof.
  intros Hpre u. unfold module.NewRepo. rewrite Hpre. cbn [andb negb].
  split; [reflexivity|].
  fold u. set (repo := module.mkRepo u tempDir "" "" sym true).
  intros r w'. unfold bind at 1.
  destruct (module.clone repo w) as [[rc repoc] wc] eqn:Hclone.
  destruct (wp_run _ _ _ _ _ _ _ (clone_cas_no_getter repo w eq_refl) Hclone)
    as (evs & Ht & Hng & Hcas & Hurl).
  destruct rc as [[]|e].
  2:{ intros [= <- <-]. exists evs. split; [exact Ht|]. split; [exact Hng|]. intros ? [=]. }
  unfold bind.
  destruct (module.parseRemoteURL repoc wc) as [[r2 repo2] w2] eqn:Hp2.
  apply parseRemoteURL_frame in Hp2 as (-> & Hu2 & Hc2 & Hpath2).
  destruct r2 as [[]|e].
  2:{ intros [= <- <-]. exists evs. split; [exact Ht|]. split; [exact Hng|]. intros ? [=]. }
  destruct (module.parseBranchName repo2 wc) as [[r3 repo3] w3] eqn:Hp3.
  apply parseBranchName_frame in Hp3 as (-> & Hu3 & Hc3 & Hpath3).
  destruct r3 as [[]|e]; intros [= <- <-].
  2:{ exists evs. split; [exact Ht|]. split; [exact Hng|]. intros ? [=]. }
  exists evs. split; [exact Ht|]. split; [exact Hng|].
  intros repo' [= <-].
  split; [now rewrite Hu3, Hu2, Hurl|]. split; [now rewrite Hc3, Hc2|].
  intros Hne Hdir.
  rewrite (clone_network_steps repo w u repo w (resolveCloneURL_given repo w Hne) Hdir)
    in Hclone.
  cbv zeta in Hclone. unfold bind in Hclone.
  destruct (module.prepareCloneDirectory (module.mkCloneOptions u (module.path repo)) repo w)
    as [[[[]|e] repo1] w1] eqn:Hprep; [|discriminate Hclone].
  destruct (prepareCloneDirectory_result _ _ _ _ _ Hprep) as (_ & _ & _ & Hcas1 & _).
  apply performClone_cas in Hclone as (-> & Ht1); [|exact Hcas1].
  destruct (wp_run _ _ _ _ _ _ _ (prepareCloneDirectory_trace _ repo w) Hprep)
    as (evsp & Htp & _).
  rewrite Htp, <- app_assoc, Ht in Ht1. apply app_inv_head in Ht1. subst evs.
  rewrite Hpath3, Hpath2. cbn [module.SourceURL].
  split; apply in_or_app; right; simpl; auto.
Qed.

(** A [cas://] URL of a remote in the stand-in world: refused without the
    experiment, fetched through the CAS engine with it. *)
Lemma NewRepo_cas_prefix_witness :
  let url := "cas://https://example.org/infra.git" in
  strings.HasPrefix url "cas://" = true
  ∧ module.NewRepo (E:=fake.env) url "/tmp/catalog" false false fake.world0
    = (Err cas_not_allowed, fake.world0)
  ∧ ∃ evs, trace (module.NewRepo (E:=fake.env) url "/tmp/catalog" false true fake.world0).2
           = (trace fake.world0 ++ evs)%list
           ∧ no_getter evs.
Proof.
  cbv zeta.
  destruct (NewRepo_cas_prefix (E:=fake.env) "cas://https://example.org/infra.git"
              "/tmp/catalog" false fake.world0 eq_refl) as [Hno Hyes].
  split; [reflexivity|]. split; [exact Hno|].
  destruct (module.NewRepo (E:=fake.env) "cas://https://example.org/infra.git"
              "/tmp/catalog" false true fake.world0) as [r w'] eqn:Hrun.
  destruct (Hyes r w' eq_refl) as (evs & Ht & Hng & _).
  exists evs. split; [exact Ht | exact Hng].
Defined.

(** C10 as stated fails: with the experiment on, [NewRepo] of
    [cas:///srv/mod], a local directory, succeeds with [useCAS] set and
    never calls the CAS engine. *)
Lemma NewRepo_cas_local_dir_no_engine :
  let run := module.NewRepo (E:=fake.env) "cas:///srv/mod" "/tmp/catalog" false true
                            fake.world0 in
  strings.HasPrefix "cas:///srv/mod" "cas://" = true
  ∧ (∃ repo', run.1 = Ok repo' ∧ module.useCAS repo' = true
              ∧ module.path repo' = "/srv/mod")
  ∧ existsb (λ ev, is_cas (ev_call ev)) (trace run.2) = false.
Proof.
  vm_compute. split; [reflexivity|]. split; [|reflexivity].
  eexists. repeat split.
Qed.

(** ** [parseRemoteURL] *)

Section ParseRemoteURL.
Context `{E : Env}.
Import module.

Lemma remoteSection_origin names acc :
  In remote_origin names → remoteSection names acc = remote_origin.
Proof.
  revert acc. induction names as [|name names IH]; intros acc Hin; [contradiction|].
  simpl. destruct (strings.HasPrefix name "remote") eqn:Hp; simpl.
  - change ("remote " ++ dquote ++ "origin" ++ dquote) with remote_origin.
    destruct (String.eqb_spec name remote_origin) as [->|Hne]; [reflexivity|].
    apply IH. destruct Hin as [->|Hin]; [contradiction | exact Hin].
  - apply IH. destruct Hin as [->|Hin]; [vm_compute in Hp; discriminate Hp | exact Hin].
Qed.

Lemma last_cons_default {A} (x : A) (l : list A) (d d' : A) :
  List.last (x :: l) d = List.last (x :: l) d'.
Proof.
  revert x. induction l as [|y l IH]; intros x; [reflexivity|].
  change (List.last (y :: l) d = List.last (y :: l) d'). apply IH.
Qed.

Lemma remoteSection_last names acc :
  ¬ In remote_origin names →
  remoteSection names acc = List.last (List.filter is_remote names) acc.
Proof.
  revert acc. induction names as [|name names IH]; intros acc Hnin; [reflexivity|].
  simpl. unfold is_remote at 1.
  destruct (strings.HasPrefix name "remote") eqn:Hp; simpl.
  - change ("remote " ++ dquote ++ "origin" ++ dquote) with remote_origin.
    destruct (String.eqb_spec name remote_origin) as [->|Hne].
    { exfalso. apply Hnin. now left. }
    rewrite IH by (intros H; apply Hnin; now right).
    destruct (List.filter is_remote names) as [|x l] eqn:Hf; [reflexivity|].
    change (List.last (name :: x :: l) acc) with (List.last (x :: l) acc).
    apply last_cons_default.
  - apply IH. intros H. apply Hnin. now right.
Qed.

Lemma parseRemoteURL_run repo w content inidata :
  files.ReadFileAsString w (gitConfigPath repo) = Ok content →
  ini_parse content = Ok inidata →
  parseRemoteURL repo w
  = (Ok tt,
     (let sectionName := remoteSection (ini.SectionStrings inidata) EmptyString in
      if String.eqb sectionName EmptyString then repo
      else set_RemoteURL (ini.KeyString inidata sectionName "url") repo),
     w).
Proof.
  intros Hread Hparse. unfold parseRemoteURL, bind, get, world, modify, ret.
  fold (gitConfigPath repo).
  assert (Hex : files.FileExists w (gitConfigPath repo) = true).
  { revert Hread. unfold files.ReadFileAsString, files.FileExists.
    destruct (stat w _) as [[]|]; [discriminate | reflexivity | discriminate]. }
  rewrite Hex, Hread, Hparse. cbn [negb].
  destruct (String.eqb _ _); reflexivity.
Qed.

Lemma is_remote_nonempty name : is_remote name = true → name ≠ EmptyString.
Proof. intros H ->. discriminate. Qed.

Lemma last_cons {A} (x : A) (l : list A) (d : A) : List.last (x :: l) d = List.last l x.
Proof.
  destruct l as [|y l]; [reflexivity|].
  change (List.last (y :: l) d = List.last (y :: l) x). apply last_cons_default.
Qed.

Lemma last_in_or_default {A} (l : list A) (d : A) : In (List.last l d) (d :: l).
Proof.
  revert d. induction l as [|x l IH]; intros d; [now left|].
  rewrite last_cons. right. apply IH.
Qed.
End ParseRemoteURL.

(** C4, on the code.  When the git config is read and parsed,
    [parseRemoteURL] sets [RemoteURL] to the [url] key of the section
    [remote "origin"] when there is one; when there is none it sets it to
    the [url] key of the LAST section whose name starts with [remote], not
    of the first one. *)
Theorem parseRemoteURL_sections `{E : Env} (repo : module.Repo) (w : World) content inidata :
  files.ReadFileAsString w (gitConfigPath repo) = Ok content →
  ini_parse content = Ok inidata →
  let names := ini.SectionStrings inidata in
  (In remote_origin names →
   module.parseRemoteURL repo w
   = (Ok tt, module.set_RemoteURL (ini.KeyString inidata remote_origin "url") repo, w))
  ∧ (¬ In remote_origin names →
     ∀ first rest,
       List.filter is_remote names = first :: rest →
       module.parseRemoteURL repo w
       = (Ok tt,
          module.set_RemoteURL (ini.KeyString inidata (List.last rest first) "url") repo,
          w)).
Proof.
  intros Hread Hparse names. rewrite (parseRemoteURL_run repo w content inidata Hread Hparse).
  cbv zeta. fold names. split.
  - intros Hin. rewrite (remoteSection_origin names _ Hin). reflexivity.
  - intros Hnin first rest Hf. rewrite (remoteSection_last names _ Hnin), Hf.
    rewrite last_cons.
    assert (Hne : List.last rest first ≠ EmptyString).
    { apply is_remote_nonempty.
      assert (Hin : In (List.last rest first) (List.filter is_remote names)).
      { rewrite Hf. apply last_in_or_default. }
      apply filter_In in Hin. apply Hin. }
    destruct (String.eqb_spec (List.last rest first) EmptyString); [contradiction|reflexivity].
Qed.

(** The work tree [/srv/mod] of the stand-in world has the remotes
    [upstream] and [fork], in this order, and no [origin]: [RemoteURL]
    becomes the URL of [fork], the last one. *)
Lemma parseRemoteURL_sections_witness :
  let repo := module.mkRepo "/srv/mod" "/srv/mod" EmptyString EmptyString false false in
  ∃ inidata,
    ini_parse (Env:=fake.env) fake.two_remotes = Ok inidata
    ∧ List.filter is_remote (ini.SectionStrings inidata)
      = [ "remote " ++ module.dquote ++ "upstream" ++ module.dquote;
          "remote " ++ module.dquote ++ "fork" ++ module.dquote ]
    ∧ ini.KeyString inidata ("remote " ++ module.dquote ++ "upstream" ++ module.dquote) "url"
      = "https://example.org/upstream.git"
    ∧ module.parseRemoteURL (E:=fake.env) repo fake.world0
      = (Ok tt, module.set_RemoteURL "https://example.org/fork.git" repo, fake.world0).
Proof.
  cbv zeta.
  set (repo := module.mkRepo "/srv/mod" "/srv/mod" EmptyString EmptyString false false).
  destruct (ini_parse (Env:=fake.env) fake.two_remotes) as [inidata|e] eqn:Hparse;
    [|vm_compute in Hparse; discriminate Hparse].
  exists inidata.
  assert (Hdata : inidata
    = [ ini.mkSection "DEFAULT" [];
        ini.mkSection ("remote " ++ module.dquote ++ "upstream" ++ module.dquote)
                      [("url", "https://example.org/upstream.git")];
        ini.mkSection ("remote " ++ module.dquote ++ "fork" ++ module.dquote)
                      [("url", "https://example.org/fork.git")] ]).
  { vm_compute in Hparse. injection Hparse as <-. reflexivity. }
  split; [reflexivity|]. split; [subst inidata; reflexivity|].
  split; [subst inidata; reflexivity|].
  assert (Hread : files.ReadFileAsString fake.world0 (gitConfigPath repo) = Ok fake.two_remotes)
    by (vm_compute; reflexivity).
  destruct (parseRemoteURL_sections (E:=fake.env) repo fake.world0 fake.two_remotes inidata
              Hread Hparse) as [_ Hlast].
  rewrite (Hlast ltac:(subst inidata; vm_compute; intuition discriminate)
                 ("remote " ++ module.dquote ++ "upstream" ++ module.dquote)
                 ["remote " ++ module.dquote ++ "fork" ++ module.dquote]
                 ltac:(subst inidata; reflexivity)).
  subst inidata. reflexivity.
Defined.

(** ** The content store (modelled from the spec) *)

Section ContentStore.
Import cas.

Lemma Content_Store_hit key data st :
  hasContent st key = true → Content_Store key data st = (Ok tt, st).
Proof. intros H. unfold Content_Store. now rewrite H. Qed.

Lemma Content_Store_fresh key data st st1 :
  hasContent st key = false →
  Content_Store key data st = (Ok tt, st1) →
  root st1 = root st ∧ entries st1 = <[entryPath st key := data]> (entries st).
Proof.
  intros Hfresh. unfold Content_Store. rewrite Hfresh.
  destruct (writable st); [|discriminate].
  unfold renameTemp, writeTemp. cbn [temps entries root writable].
  rewrite lookup_insert_eq. intros [= <-]. split; reflexivity.
Qed.
End ContentStore.

(** C3 (as amended).  After a successful [Store(k, v)], a second
    [Store(k, v)] succeeds and leaves the whole store as it was, so nothing
    is written again and every read is as after the single call; a read of
    [k] then returns [v] when [k] had no entry before the first call, and
    the bytes [k] already held otherwise. *)
Theorem Content_Store_idempotent (key data : string) (st st1 : cas.Store) :
  cas.Content_Store key data st = (Ok tt, st1) →
  cas.Content_Store key data st1 = (Ok tt, st1)
  ∧ (cas.hasContent st key = false → cas.Content_Read key st1 = Ok data)
  ∧ (∀ old, cas.Content_Read key st = Ok old →
            st1 = st ∧ cas.Content_Read key st1 = Ok old).
Proof.
  intros Hstore.
  destruct (cas.hasContent st key) eqn:Hhas.
  - rewrite (Content_Store_hit key data st Hhas) in Hstore. injection Hstore as <-.
    split; [now apply Content_Store_hit|]. split; [discriminate|].
    intros old Hold. now split.
  - destruct (Content_Store_fresh key data st st1 Hhas Hstore) as [Hroot Hent].
    assert (Hread : cas.Content_Read key st1 = Ok data).
    { unfold cas.Content_Read, cas.entryPath. rewrite Hroot, Hent.
      fold (cas.entryPath st key). now rewrite lookup_insert_eq. }
    split; [|split].
    + apply Content_Store_hit. unfold cas.hasContent, cas.entryPath.
      rewrite Hroot, Hent. fold (cas.entryPath st key). now rewrite lookup_insert_eq.
    + intros _. exact Hread.
    + intros old Hold. exfalso. revert Hhas Hold.
      unfold cas.hasContent, cas.Content_Read.
      destruct (cas.entries st !! cas.entryPath st key); discriminate.
Qed.

(** The first store of the benchmark on an empty store, run twice. *)
Lemma Content_Store_idempotent_witness :
  let st := cas.NewStore "/cache" in
  let st1 := (cas.Content_Store "benchmark0" "test content for benchmarking" st).2 in
  cas.Content_Store "benchmark0" "test content for benchmarking" st = (Ok tt, st1)
  ∧ cas.Content_Store "benchmark0" "test content for benchmarking" st1 = (Ok tt, st1)
  ∧ cas.Content_Read "benchmark0" st1 = Ok "test content for benchmarking".
Proof.
  cbv zeta.
  assert (Hrun : cas.Content_Store "benchmark0" "test content for benchmarking"
                   (cas.NewStore "/cache")
                 = (Ok tt, (cas.Content_Store "benchmark0" "test content for benchmarking"
                              (cas.NewStore "/cache")).2)) by reflexivity.
  destruct (Content_Store_idempotent _ _ _ _ Hrun) as (Hagain & Hread & _).
  split; [exact Hrun|]. split; [exact Hagain|]. exact (Hread eq_refl).
Defined.

(** C3 as stated fails: in a store where the key already holds other
    bytes, [Store(k, v)] twice succeeds twice, and the read returns the
    bytes that were there, not [v]. *)
Lemma Content_Store_keeps_old_bytes :
  let s1 := cas.Content_Store "benchmark0" "new bytes" fake.store0 in
  let s2 := cas.Content_Store "benchmark0" "new bytes" s1.2 in
  s1.1 = Ok tt ∧ s2.1 = Ok tt
  ∧ cas.Content_Read "benchmark0" s2.2 = Ok "old bytes".
Proof. vm_compute. repeat split. Qed.

(** ** The git process client (modelled from the spec) *)

Section GitRunner.
Import cln.

Lemma filter_none {A} (P : A → bool) (l : list A) :
  Forall (λ x, P x = false) l → filter (λ x, P x = true) l = [].
Proof.
  induction 1 as [|x l Hx _ IH]; [reflexivity|].
  rewrite filter_cons. destruct (decide (P x = true)) as [Ht|_]; [congruence | exact IH].
Qed.

Lemma git_ls_remote_no_match n url pattern r :
  remote n url = Serving r →
  Forall (λ x, ref_matches pattern (Ref x) = false) (refs r) →
  git_ls_remote n url pattern = Some EmptyString.
Proof.
  intros Hr Hall. unfold git_ls_remote. rewrite Hr.
  now rewrite (filter_none (λ x, ref_matches pattern (Ref x))).
Qed.

Lemma git_ls_remote_down n url pattern :
  (∀ r, remote n url ≠ Serving r) → git_ls_remote n url pattern = None.
Proof.
  intros H. unfold git_ls_remote. destruct (remote n url); try reflexivity.
  now destruct (H r).
Qed.
End GitRunner.

Section LsRemoteOutput.
Import cln.

Let clean (a : ascii) : bool := negb (Ascii.eqb a tab) && negb (Ascii.eqb a newline).

Lemma split_on_line (l rest : list ascii) :
  forallb (λ a, negb (Ascii.eqb a newline)) l = true →
  strings.split_on newline (l ++ newline :: rest)%list = l :: strings.split_on newline rest.
Proof.
  induction l as [|a l IH]; intros Hl; [reflexivity|].
  simpl in Hl. apply andb_prop in Hl as [Ha Hl]. apply negb_true_iff in Ha.
  cbn [app strings.split_on]. rewrite Ha, (IH Hl). reflexivity.
Qed.

Lemma clean_no_newline (l : list ascii) :
  forallb clean l = true → forallb (λ a, negb (Ascii.eqb a newline)) l = true.
Proof.
  induction l as [|a l IH]; [reflexivity|]. simpl. intros H.
  apply andb_prop in H as [Ha H]. apply andb_prop in Ha as [_ Ha].
  now rewrite Ha, (IH H).
Qed.

Lemma break_at_tab (h r : list ascii) :
  forallb clean h = true → break_at tab (h ++ tab :: r)%list = Some (h, r).
Proof.
  induction h as [|a h IH]; intros Hh; [reflexivity|].
  simpl in Hh. apply andb_prop in Hh as [Ha Hh].
  apply andb_prop in Ha as [Ha _]. apply negb_true_iff in Ha.
  cbn [app break_at]. rewrite Ha, (IH Hh). reflexivity.
Qed.

Lemma plain_list s :
  plain s = true →
  list_ascii_of_string s ≠ [] ∧ forallb clean (list_ascii_of_string s) = true.
Proof.
  unfold plain. intros H. apply andb_prop in H as [Hne Hall]. split; [|exact Hall].
  intros Hnil. apply list_of_string_nil in Hnil. subst s. discriminate Hne.
Qed.

Lemma parse_line_print (x : GitRef) :
  wf_ref x = true →
  parse_line (list_ascii_of_string (Hash x) ++ tab :: list_ascii_of_string (Ref x))%list
  = Some x.
Proof.
  unfold wf_ref. intros H. apply andb_prop in H as [Hh Hr].
  apply plain_list in Hh as [Hhne Hh]. apply plain_list in Hr as [Hrne _].
  unfold parse_line. rewrite (break_at_tab _ _ Hh).
  destruct (list_ascii_of_string (Hash x)) as [|a h] eqn:Eh; [congruence|].
  destruct (list_ascii_of_string (Ref x)) as [|b r] eqn:Er; [congruence|].
  rewrite <- Eh, <- Er, !string_of_list_ascii_of_string. now destruct x.
Qed.

(** Parsing the output of the process gives back the references it
    printed. *)
Lemma parse_refs_print (l : list GitRef) :
  forallb wf_ref l = true →
  parse_refs (fold_right (λ r out, print_ref r ++ out) EmptyString l) = l.
Proof.
  unfold parse_refs. induction l as [|x l IH]; intros Hwf; [reflexivity|].
  simpl in Hwf. apply andb_prop in Hwf as [Hx Hwf].
  cbn [fold_right]. rewrite list_of_string_app.
  set (rest := list_ascii_of_string (fold_right _ _ l)) in *.
  unfold print_ref. rewrite list_of_string_app. cbn [list_ascii_of_string].
  rewrite list_of_string_app. cbn [list_ascii_of_string].
  set (h := list_ascii_of_string (Hash x)). set (r := list_ascii_of_string (Ref x)).
  assert (Heq : ((h ++ tab :: r ++ [newline]) ++ rest)%list
                = ((h ++ tab :: r) ++ newline :: rest)%list).
  { rewrite <- !app_assoc. cbn [app]. rewrite <- app_assoc. reflexivity. }
  rewrite Heq. subst h r.
  rewrite split_on_line.
  - cbn [omap list_omap]. rewrite (parse_line_print x Hx), (IH Hwf). reflexivity.
  - unfold wf_ref in Hx. apply andb_prop in Hx as [Hh Hr].
    apply plain_list in Hh as [_ Hh]. apply plain_list in Hr as [_ Hr].
    rewrite forallb_app, (clean_no_newline _ Hh). cbn [forallb].
    now rewrite (clean_no_newline _ Hr).
Qed.

(** On a remote that answers, [LsRemote] returns the references that match
    the pattern when there is one. *)
Lemma LsRemote_matching g n url pattern r x l :
  remote n url = Serving r →
  forallb wf_ref (refs r) = true →
  filter (λ y, ref_matches pattern (Ref y) = true) (refs r) = x :: l →
  LsRemote g n url pattern = inr (x :: l).
Proof.
  intros Hr Hwf Hf. unfold LsRemote, git_ls_remote. rewrite Hr, Hf.
  rewrite parse_refs_print; [reflexivity|].
  apply forallb_forall. intros y Hy. rewrite forallb_forall in Hwf. apply Hwf.
  assert (Hin : y ∈ filter (λ y, ref_matches pattern (Ref y) = true) (refs r)).
  { rewrite Hf. now apply list_elem_of_In. }
  apply list_elem_of_filter in Hin as [_ Hin]. now apply list_elem_of_In.
Qed.
End LsRemoteOutput.

(** C6.  On a remote that answers, a pattern that matches none of its
    references makes [LsRemote] fail with the sentinel
    [ErrNoMatchingReference]; on a remote that is unreachable, misnamed or
    needs authentication that is not there, it fails with the sentinel
    [ErrCommandSpawn].  The two sentinels differ, and [Is] compares the
    sentinel only, never the context. *)
Theorem LsRemote_sentinels (g : cln.GitRunner) (n : cln.Net) (url pattern : string) :
  (∀ r, cln.remote n url = cln.Serving r →
        Forall (λ x, cln.ref_matches pattern (cln.Ref x) = false) (cln.refs r) →
        ∃ e, cln.LsRemote g n url pattern = inl e
             ∧ cln.Is e cln.ErrNoMatchingReference = true
             ∧ cln.Is e cln.ErrCommandSpawn = false)
  ∧ (cln.remote n url = cln.Unreachable ∨ cln.remote n url = cln.Misnamed
     ∨ cln.remote n url = cln.AuthUnavailable →
     ∃ e, cln.LsRemote g n url pattern = inl e
          ∧ cln.Is e cln.ErrCommandSpawn = true
          ∧ cln.Is e cln.ErrNoMatchingReference = false)
  ∧ cln.ErrNoMatchingReference ≠ cln.ErrCommandSpawn
  ∧ (∀ op op' ctx ctx' s s', cln.Is (cln.mkWrapped op ctx s) s'
                             = cln.Is (cln.mkWrapped op' ctx' s) s').
Proof.
  split; [|split; [|split]].
  - intros r Hr Hall. unfold cln.LsRemote.
    rewrite (git_ls_remote_no_match n url pattern r Hr Hall).
    eexists. split; [reflexivity|]. split; reflexivity.
  - intros Hdown. unfold cln.LsRemote.
    rewrite git_ls_remote_down.
    + eexists. split; [reflexivity|]. split; reflexivity.
    + intros r Hr. rewrite Hr in Hdown. destruct Hdown as [H|[H|H]]; discriminate H.
  - discriminate.
  - reflexivity.
Qed.

(** On the stand-in network: a branch that does not exist on the served
    repository, and a remote that is down. *)
Lemma LsRemote_sentinels_witness :
  (∃ e, cln.LsRemote cln.NewGitRunner fake.net0 "https://example.org/infra.git"
                     "nonexistent-branch" = inl e
        ∧ cln.Is e cln.ErrNoMatchingReference = true
        ∧ cln.Is e cln.ErrCommandSpawn = false)
  ∧ (∃ e, cln.LsRemote cln.NewGitRunner fake.net0 "https://down.example/infra.git"
                       "HEAD" = inl e
          ∧ cln.Is e cln.ErrCommandSpawn = true
          ∧ cln.Is e cln.ErrNoMatchingReference = false).
Proof.
  split.
  - refine (proj1 (LsRemote_sentinels cln.NewGitRunner fake.net0
                     "https://example.org/infra.git" "nonexistent-branch")
                  fake.infra eq_refl _).
    repeat constructor.
  - refine (proj1 (proj2 (LsRemote_sentinels cln.NewGitRunner fake.net0
                            "https://down.example/infra.git" "HEAD")) _).
    left. reflexivity.
Defined.

(** C7.  On a client with no bound working directory [Clone] and [LsTree]
    fail with the sentinel [ErrNoWorkDir] and change nothing; on a client
    produced by [WithWorkDir], [RequiresWorkDir] returns no error, and the
    client it was produced from is still unbound. *)
Theorem work_directory_guard (g : cln.GitRunner) (n : cln.Net)
    (url branch ref path dir : string) (shallow : bool) (depth : nat) :
  (cln.WorkDir g = None →
   (∃ e, cln.Clone g n url shallow depth branch = (Some e, n)
         ∧ cln.Is e cln.ErrNoWorkDir = true)
   ∧ (∃ e, cln.LsTree g n ref path = inl e ∧ cln.Is e cln.ErrNoWorkDir = true))
  ∧ cln.RequiresWorkDir (cln.WithWorkDir g dir) = None
  ∧ cln.WorkDir (cln.WithWorkDir g dir) = Some dir.
Proof.
  split; [|split; reflexivity].
  intros Hno. unfold cln.Clone, cln.LsTree, cln.RequiresWorkDir. rewrite Hno.
  split; eexists; split; reflexivity.
Qed.

Lemma work_directory_guard_witness :
  cln.WorkDir cln.NewGitRunner = None
  ∧ (∃ e, cln.Clone cln.NewGitRunner fake.net0 "https://example.org/infra.git" true 1 "main"
          = (Some e, fake.net0)
          ∧ cln.Is e cln.ErrNoWorkDir = true)
  ∧ (∃ e, cln.LsTree cln.NewGitRunner fake.net0 "HEAD" "." = inl e
          ∧ cln.Is e cln.ErrNoWorkDir = true).
Proof.
  split; [reflexivity|].
  exact (proj1 (work_directory_guard cln.NewGitRunner fake.net0
                  "https://example.org/infra.git" "main" "HEAD" "." "/work" true 1) eq_refl).
Defined.

(** The default branch of the served repository resolves. *)
Example LsRemote_head :
  cln.LsRemote cln.NewGitRunner fake.net0 "https://example.org/infra.git" "HEAD"
  = inr [cln.mkRef "4f2c9a1b7e3d5f60812a4c6e9b0d3f5a7c1e8b24" "HEAD"].
Proof. vm_compute. reflexivity. Qed.

(** A bound client clones and lists the tree. *)
Example Clone_then_LsTree :
  let g := cln.WithWorkDir cln.NewGitRunner "/work" in
  let run := cln.Clone g fake.net0 "https://example.org/infra.git" true 1 "main" in
  run.1 = None
  ∧ cln.LsTree g run.2 "HEAD" "."
    = inr [cln.mkEntry "README.md" "blob" "100644" "9d1e4a7c3b5f2068a1c4e7b9d0f3a5c7e1b8d246"].
Proof. vm_compute. split; reflexivity. Qed.

(** * Further properties of the package *)

(** ** The matcher: what a match consumed *)

Section Matcher.
Import regexp.

Lemma star_lazy_sound p (k : cont) pos rest c res :
  star_lazy p k pos rest c = Some res →
  ∃ n, (n ≤ List.length rest)%nat ∧ forallb p (take n rest) = true
       ∧ k (pos + n) (drop n rest) c = Some res.
Proof.
  revert pos. induction rest as [|a rest IH]; intros pos; simpl.
  - destruct (k pos [] c) eqn:Hk; [|discriminate]. intros [= <-].
    exists 0. rewrite Nat.add_0_r. auto.
  - destruct (k pos (a :: rest) c) eqn:Hk.
    + intros [= <-]. exists 0. rewrite Nat.add_0_r. simpl. auto with arith.
    + destruct (p a) eqn:Ha; [|discriminate]. intros H.
      destruct (IH _ H) as (n & Hn & Hall & Hk').
      exists (S n). simpl. rewrite Ha, Hall.
      replace (pos + S n) with (S pos + n) by lia. auto with arith.
Qed.

Lemma star_greedy_sound p (k : cont) pos rest c res :
  star_greedy p k pos rest c = Some res →
  ∃ n, (n ≤ List.length rest)%nat ∧ forallb p (take n rest) = true
       ∧ k (pos + n) (drop n rest) c = Some res.
Proof.
  revert pos. induction rest as [|a rest IH]; intros pos; simpl.
  - intros H. exists 0. rewrite Nat.add_0_r. auto.
  - assert (Hzero : k pos (a :: rest) c = Some res →
             ∃ n, (n ≤ S (List.length rest))%nat ∧ forallb p (take n (a :: rest)) = true
                  ∧ k (pos + n) (drop n (a :: rest)) c = Some res).
    { intros H. exists 0. rewrite Nat.add_0_r. simpl. auto with arith. }
    destruct (p a) eqn:Ha; [|exact Hzero].
    destruct (star_greedy p k (S pos) rest c) eqn:Hs; [|exact Hzero].
    intros [= <-]. destruct (IH _ Hs) as (n & Hn & Hall & Hk').
    exists (S n). simpl. rewrite Ha, Hall.
    replace (pos + S n) with (S pos + n) by lia. auto with arith.
Qed.

Lemma star_lazy_none p (k : cont) pos rest c :
  (∀ n, (n ≤ List.length rest)%nat → forallb p (take n rest) = true →
        k (pos + n) (drop n rest) c = None) →
  star_lazy p k pos rest c = None.
Proof.
  revert pos. induction rest as [|a rest IH]; intros pos Hk; simpl.
  - specialize (Hk 0 (le_n _) eq_refl). rewrite Nat.add_0_r in Hk. simpl in Hk.
    now rewrite Hk.
  - pose proof (Hk 0 (Nat.le_0_l _) eq_refl) as H0. rewrite Nat.add_0_r in H0.
    simpl in H0. rewrite H0. destruct (p a) eqn:Ha; [|reflexivity].
    apply IH. intros n Hn Hall.
    replace (S pos + n) with (pos + S n) by lia.
    apply (Hk (S n)); simpl; [lia | now rewrite Ha].
Qed.

Lemma star_greedy_all p (k : cont) pos rest c r :
  forallb p rest = true →
  k (pos + List.length rest) [] c = Some r →
  star_greedy p k pos rest c = Some r.
Proof.
  revert pos. induction rest as [|a rest IH]; intros pos Hall Hk; simpl in *.
  - now rewrite Nat.add_0_r in Hk.
  - apply andb_prop in Hall as [Ha Hall]. rewrite Ha.
    rewrite (IH (S pos) Hall); [reflexivity|].
    now replace (S pos + List.length rest) with (pos + S (List.length rest)) by lia.
Qed.

Lemma class_avoids p a (l : list ascii) :
  p a = false → forallb p l = true → forallb (not_chr a) l = true.
Proof.
  intros Hp. induction l as [|x l IH]; simpl; [reflexivity|].
  intros H. apply andb_prop in H as [Hx H]. rewrite (IH H), andb_true_r.
  unfold not_chr. apply negb_true_iff. apply Ascii.eqb_neq. intros ->. congruence.
Qed.

(** A match of [r], none of whose classes accepts [a], consumes a prefix of
    the text without [a] and then continues; it leaves the groups alone
    when [r] has none, and consumes the whole text when [r] ends with [$]. *)
Lemma rmatch_sound a r : ∀ (k : cont) pos rest c res,
  avoids a r = true →
  rmatch r k pos rest c = Some res →
  ∃ n c', (n ≤ List.length rest)%nat
          ∧ forallb (not_chr a) (take n rest) = true
          ∧ k (pos + n) (drop n rest) c' = Some res
          ∧ (no_grp r = true → c' = c)
          ∧ (ends_eol r = true → n = List.length rest).
Proof.
  induction r as [| |p|g p|r1 IH1|r1 IH1 r2 IH2|i r1 IH1]; intros k pos rest c res Hav Hm;
    simpl in Hav, Hm.
  - destruct (Nat.eqb pos 0); [|discriminate].
    exists 0, c. rewrite Nat.add_0_r. simpl.
    repeat split; auto with arith; try (intros; discriminate).
  - destruct rest; [|discriminate].
    exists 0, c. rewrite Nat.add_0_r. simpl. repeat split; auto.
  - destruct rest as [|x rest]; [discriminate|]. destruct (p x) eqn:Hx; [|discriminate].
    exists 1, c. simpl. rewrite drop_0, Nat.add_1_r.
    split; [lia|]. split; [|split; [exact Hm|split; [reflexivity | discriminate]]].
    rewrite andb_true_r. unfold not_chr. apply negb_true_iff, Ascii.eqb_neq.
    intros ->. apply negb_true_iff in Hav. congruence.
  - apply negb_true_iff in Hav.
    assert (∃ n, (n ≤ List.length rest)%nat ∧ forallb p (take n rest) = true
                 ∧ k (pos + n) (drop n rest) c = Some res) as (n & Hn & Hall & Hk).
    { destruct g; [now apply star_greedy_sound | now apply star_lazy_sound]. }
    exists n, c. repeat split; auto; try (intros; discriminate).
    now apply (class_avoids p).
  - destruct (rmatch r1 k pos rest c) eqn:H1.
    + injection Hm as <-. destruct (IH1 _ _ _ _ _ Hav H1) as (n & c' & Hn & Hall & Hk & Hg & _).
      exists n, c'. repeat split; auto; try (intros; discriminate).
    + exists 0, c. rewrite Nat.add_0_r. simpl.
      repeat split; auto with arith; try (intros; discriminate).
  - apply andb_prop in Hav as [Hav1 Hav2].
    destruct (IH1 _ _ _ _ _ Hav1 Hm) as (n1 & c1 & Hn1 & Hall1 & Hk1 & Hg1 & _).
    destruct (IH2 _ _ _ _ _ Hav2 Hk1) as (n2 & c2 & Hn2 & Hall2 & Hk2 & Hg2 & He2).
    rewrite length_drop in Hn2.
    exists (n1 + n2), c2. split; [lia|]. split; [|split; [|split]].
    + rewrite <- take_take_drop, forallb_app. now rewrite Hall1, Hall2.
    + rewrite drop_drop in Hk2. now rewrite Nat.add_assoc.
    + intros Hg. apply andb_prop in Hg as [Ha Hb]. rewrite (Hg2 Hb). now apply Hg1.
    + intros He. rewrite (He2 He), length_drop. lia.
  - destruct (IH1 _ _ _ _ _ Hav Hm) as (n & c' & Hn & Hall & Hk & _ & He).
    exists n, ((i, (pos, pos + n)) :: c'). repeat split; auto; try (intros; discriminate).
Qed.

(** The group [(c+)]: it takes one or more bytes of the class and records
    their bounds. *)
Lemma plus_group_sound i p (k : cont) pos rest c res :
  rmatch (Grp i (Cat (Cls p) (Star true p))) k pos rest c = Some res →
  ∃ n, (1 ≤ n)%nat ∧ (n ≤ List.length rest)%nat ∧ forallb p (take n rest) = true
       ∧ k (pos + n) (drop n rest) ((i, (pos, pos + n)) :: c) = Some res.
Proof.
  simpl. destruct rest as [|x rest]; [discriminate|].
  destruct (p x) eqn:Hx; [|discriminate]. intros H.
  apply star_greedy_sound in H as (n & Hn & Hall & Hk).
  exists (S n). simpl. rewrite Hx, Hall.
  replace (pos + S n) with (S pos + n) by lia. repeat split; auto with arith.
Qed.

Lemma search_bol_later r pos rest :
  pos ≠ 0 → search (Cat Bol r) pos rest = None.
Proof.
  revert pos. induction rest as [|a rest IH]; intros pos Hpos; simpl;
    destruct (Nat.eqb_spec pos 0); try contradiction; auto.
Qed.

(** A pattern that starts with [^] matches at the start of the text or
    nowhere. *)
Lemma search_bol r rest :
  search (Cat Bol r) 0 rest
  = match rmatch r accept 0 rest [] with
    | Some (e, c) => Some (0, e, c)
    | None => None
    end.
Proof.
  destruct rest as [|a rest]; simpl; destruct (rmatch r accept 0 _ []) as [[e c]|];
    try reflexivity.
  now apply search_bol_later.
Qed.

Lemma Lit_match l r (k : cont) pos rest c :
  rmatch (Lit l r) k pos (l ++ rest)%list c = rmatch r k (pos + List.length l) rest c.
Proof.
  revert pos. induction l as [|a l IH]; intros pos; simpl.
  - now rewrite Nat.add_0_r.
  - unfold chr at 1. rewrite Ascii.eqb_refl, IH. f_equal. lia.
Qed.

Lemma Lit_sound l r (k : cont) pos text c res :
  rmatch (Lit l r) k pos text c = Some res →
  ∃ rest, text = (l ++ rest)%list ∧ rmatch r k (pos + List.length l) rest c = Some res.
Proof.
  revert pos text. induction l as [|a l IH]; intros pos text; simpl.
  - intros H. exists text. now rewrite Nat.add_0_r.
  - destruct text as [|x text]; [discriminate|]. unfold chr at 1.
    destruct (Ascii.eqb_spec x a) as [->|]; [|discriminate]. intros H.
    destruct (IH _ _ H) as (rest & -> & Hr). exists rest. split; [reflexivity|].
    now replace (pos + S (List.length l)) with (S pos + List.length l) by lia.
Qed.
End Matcher.

(** ** The group of the two anchored patterns *)

Section AnchoredGroup.
Import regexp.

Lemma anchored_group_match p tail text e c :
  rmatch (Cat (Star false dot)
            (Cat (Grp 1 (Cat (Cls p) (Star true p))) tail)) accept 0 text [] = Some (e, c) →
  ∃ n m, forallb dot (take n text) = true
         ∧ (1 ≤ m)%nat ∧ (n + m ≤ List.length text)%nat
         ∧ forallb p (take m (drop n text)) = true
         ∧ rmatch tail accept (n + m) (drop (n + m) text) [(1, (n, n + m))] = Some (e, c).
Proof.
  change (rmatch (Cat (Star false dot) (Cat (Grp 1 (Cat (Cls p) (Star true p))) tail))
            accept 0 text [])
    with (star_lazy dot
            (λ pos rest c0,
               rmatch (Grp 1 (Cat (Cls p) (Star true p)))
                 (λ pos' rest' c', rmatch tail accept pos' rest' c') pos rest c0) 0 text []).
  intros H. apply star_lazy_sound in H as (n & Hn & Hdot & H).
  apply plus_group_sound in H as (m & Hm1 & Hm & Hp & H).
  rewrite length_drop in Hm. rewrite drop_drop in H. cbn [Nat.add] in H.
  exists n, m. repeat split; auto. lia.
Qed.

(** What [FindStringSubmatch] returns for a pattern [^.*?(c+)T] whose tail
    [T] has no group and ends with [$]: nothing, or the whole text and the
    text of the group, which is non-empty, made of bytes of the class, and
    stands in the text after a prefix without newline and before a rest
    that has none of the bytes the tail cannot take. *)
Lemma FindStringSubmatch_anchored (rx : Regexp) p tail a s :
  syntax rx = anchored_group p tail → NumSubexp rx = 1 →
  no_grp tail = true → ends_eol tail = true → avoids a tail = true →
  FindStringSubmatch rx s = []
  ∨ ∃ m1 pre post,
      FindStringSubmatch rx s = [s; m1]
      ∧ m1 ≠ EmptyString ∧ all_bytes p m1 = true
      ∧ list_ascii_of_string s = (pre ++ list_ascii_of_string m1 ++ post)%list
      ∧ forallb dot pre = true
      ∧ forallb (not_chr a) post = true.
Proof.
  intros Hsyn Hnum Hng Heol Hav. unfold FindStringSubmatch. rewrite Hsyn, Hnum.
  unfold anchored_group. rewrite search_bol.
  set (text := list_ascii_of_string s).
  destruct (rmatch _ accept 0 text []) as [[e c]|] eqn:Hm; [right|now left].
  apply anchored_group_match in Hm as (n & m & Hdot & Hm1 & Hm & Hp & Ht).
  destruct (rmatch_sound a tail _ _ _ _ _ Hav Ht) as (j & c' & Hj & Hpost & Hacc & Hc & He).
  rewrite (Hc Hng) in Hacc. injection Hacc as <- <-.
  specialize (He Heol). rewrite He in Hpost. rewrite firstn_all in Hpost.
  rewrite He, length_drop.
  exists (slice text n (n + m)), (take n text), (drop (n + m) text).
  cbn [seq map get_cap Nat.eqb]. unfold slice.
  replace (n + m - n) with m by lia.
  replace (n + m + (List.length text - (n + m)) - 0) with (List.length text) by lia.
  rewrite drop_0, firstn_all, list_ascii_of_string_of_list_ascii.
  unfold text at 1. rewrite string_of_list_ascii_of_string.
  split; [reflexivity|]. split; [|split; [|split; [|split]]].
  - intros Hnil. apply (f_equal list_ascii_of_string) in Hnil.
    rewrite list_ascii_of_string_of_list_ascii in Hnil. simpl in Hnil.
    apply (f_equal (@List.length ascii)) in Hnil.
    rewrite length_take, length_drop in Hnil. simpl in Hnil. lia.
  - unfold all_bytes. now rewrite list_ascii_of_string_of_list_ascii.
  - rewrite <- (drop_drop text m n), (take_drop m (drop n text)).
    now rewrite take_drop.
  - exact Hdot.
  - exact Hpost.
Qed.
End AnchoredGroup.

(** ** [extractRepoName] *)

Section RepoName.
Import regexp module.

Lemma repoName_syntax : syntax repoNameFromCloneURLReg = anchored_group name_chr repoNameTail.
Proof. reflexivity. Qed.

(** A pattern that cannot take the byte [a] and ends with [$] does not
    match a text with [a] in it. *)
Lemma rmatch_needs_clean a r pos rest c :
  avoids a r = true → ends_eol r = true →
  forallb (not_chr a) rest = false →
  rmatch r accept pos rest c = None.
Proof.
  intros Hav Heol Hdirty. destruct (rmatch r accept pos rest c) as [res|] eqn:Hm; [|reflexivity].
  destruct (rmatch_sound a r _ _ _ _ _ Hav Hm) as (n & c' & _ & Hall & _ & _ & He).
  rewrite (He Heol), firstn_all in Hall. congruence.
Qed.


(** The group and the tail of the pattern on a text made of name bytes. *)
Lemma repoName_segment pos seg c :
  seg ≠ [] → forallb name_chr seg = true →
  rmatch (Cat (Grp 1 (Cat (Cls name_chr) (Star true name_chr))) repoNameTail)
         accept pos seg c
  = Some (pos + List.length seg, (1, (pos, pos + List.length seg)) :: c).
Proof.
  intros Hne Hall. destruct seg as [|x seg]; [congruence|].
  simpl in Hall. apply andb_prop in Hall as [Hx Hall].
  cbn [rmatch]. rewrite Hx.
  erewrite star_greedy_all; [reflexivity | exact Hall |].
  cbn. unfold accept. repeat f_equal; lia.
Qed.

Lemma forallb_last_false {A} (p : A → bool) (l : list A) (x : A) (k : list A) :
  p x = false → forallb p ((l ++ [x]) ++ k)%list = false.
Proof.
  intros Hx. rewrite !forallb_app. simpl. rewrite Hx. now rewrite andb_false_r.
Qed.

Lemma find_repo_segment (pre seg : string) :
  all_bytes dot pre = true → seg ≠ EmptyString → all_bytes name_chr seg = true →
  FindStringSubmatch repoNameFromCloneURLReg (pre ++ "/" ++ seg) = [pre ++ "/" ++ seg; seg].
Proof.
  unfold all_bytes. intros Hdot Hne Hall.
  assert (Hseg : list_ascii_of_string seg ≠ []).
  { intros H. apply Hne. now apply list_of_string_nil. }
  unfold FindStringSubmatch. rewrite repoName_syntax. unfold anchored_group.
  rewrite search_bol. rewrite !list_of_string_app. cbn [list_ascii_of_string app].
  set (lp := list_ascii_of_string pre) in *. set (ls := list_ascii_of_string seg) in *.
  change (lp ++ "/"%char :: ls)%list with (lp ++ ["/"%char] ++ ls)%list.
  rewrite app_assoc.
  change (rmatch (Cat (Star false dot)
                    (Cat (Grp 1 (Cat (Cls name_chr) (Star true name_chr))) repoNameTail))
            accept 0 ((lp ++ ["/"%char]) ++ ls)%list [])
    with (star_lazy dot
            (rmatch (Cat (Grp 1 (Cat (Cls name_chr) (Star true name_chr))) repoNameTail) accept)
            0 ((lp ++ ["/"%char]) ++ ls)%list []).
  rewrite (star_lazy_first _ (lp ++ ["/"%char])%list ls 0 []
             (List.length (lp ++ ["/"%char])%list + List.length ls,
              [(1, (List.length (lp ++ ["/"%char])%list,
                    List.length (lp ++ ["/"%char])%list + List.length ls))])).
  - cbn [NumSubexp repoNameFromCloneURLReg seq map get_cap Nat.eqb]. unfold slice.
    rewrite Nat.sub_0_r, drop_0.
    replace (List.length (lp ++ ["/"%char])%list + List.length ls)
      with (List.length ((lp ++ ["/"%char]) ++ ls)%list) by now rewrite (length_app _ ls).
    rewrite firstn_all, (length_app _ ls), drop_app_length.
    replace (_ + _ - _) with (List.length ls) by lia. rewrite firstn_all.
    unfold ls. rewrite string_of_list_ascii_of_string. f_equal.
    rewrite <- app_assoc. cbn [app].
    change ("/"%char :: list_ascii_of_string seg) with (list_ascii_of_string ("/" ++ seg)).
    unfold lp. rewrite <- list_of_string_app. apply string_of_list_ascii_of_string.
  - rewrite forallb_app, Hdot. reflexivity.
  - intros p1 p2 Hsplit Hp2. apply (rmatch_needs_clean "/"); [reflexivity..|].
    destruct (exists_last Hp2) as (p2' & z & ->).
    rewrite app_assoc in Hsplit. apply app_inj_tail in Hsplit as [_ <-].
    now apply forallb_last_false.
  - rewrite repoName_segment by assumption. reflexivity.
Qed.


Lemma extractRepoName_run repo w :
  extractRepoName repo w
  = (Ok (match FindStringSubmatch repoNameFromCloneURLReg (cloneURL repo) with
         | _ :: m1 :: _ => if String.eqb m1 EmptyString then "temp" else m1
         | _ => "temp"
         end), repo, w).
Proof.
  unfold extractRepoName, bind, get, ret.
  destruct (FindStringSubmatch _ _) as [|m0 [|m1 ms]]; try reflexivity.
  destruct (String.eqb m1 ""); reflexivity.
Qed.
End RepoName.


(** X2.  For a clone URL [pre/seg] whose last segment [seg] is non-empty and
    made of letters, [-], [_] and [.] (and whose [pre] has no newline), the
    directory name is the whole of [seg]: a final [.git] is kept. *)
Theorem extractRepoName_last_segment (repo : module.Repo) (w : World) (pre seg : string) :
  module.cloneURL repo = pre ++ "/" ++ seg →
  all_bytes regexp.dot pre = true →
  seg ≠ EmptyString → all_bytes module.name_chr seg = true →
  module.extractRepoName repo w = (Ok seg, repo, w).
Proof.
  intros Hurl Hdot Hne Hall. rewrite extractRepoName_run, Hurl.
  rewrite (find_repo_segment pre seg Hdot Hne Hall).
  destruct (String.eqb_spec seg EmptyString); [contradiction | reflexivity].
Qed.

Lemma extractRepoName_last_segment_witness :
  module.extractRepoName
    (module.mkRepo "https://github.com/gruntwork-io/terragrunt.git" "/tmp/catalog"
                   EmptyString EmptyString false false) fake.world0
  = (Ok "terragrunt.git",
     module.mkRepo "https://github.com/gruntwork-io/terragrunt.git" "/tmp/catalog"
                   EmptyString EmptyString false false, fake.world0).
Proof.
  apply (extractRepoName_last_segment _ _ "https://github.com/gruntwork-io" "terragrunt.git");
    [reflexivity | reflexivity | discriminate | reflexivity].
Defined.



(** ** [parseBranchName] *)

Section BranchName.
Import regexp module.

Lemma strip_prefix_app p : ∀ l l', strings.strip_prefix p l = Some l' → l = (p ++ l')%list.
Proof.
  induction p as [|b p IH]; intros l l' H; simpl in H.
  - now injection H as ->.
  - destruct l as [|a l]; [discriminate|].
    destruct (Ascii.eqb_spec a b) as [->|]; [|discriminate].
    simpl. f_equal. now apply IH.
Qed.

Lemma strip_one_app runes : ∀ l l', strings.strip_one runes l = Some l' →
  ∃ p, l = (p ++ l')%list.
Proof.
  induction runes as [|r runes IH]; intros l l' H; simpl in H; [discriminate|].
  destruct (strings.strip_prefix r l) as [l0|] eqn:Hr.
  - injection H as ->. exists r. now apply strip_prefix_app.
  - now apply IH.
Qed.

(** Trimming only removes bytes at the front. *)
Lemma trim_left_fuel_forallb (q : ascii → bool) runes n : ∀ l,
  forallb q l = true → forallb q (strings.trim_left_fuel runes n l) = true.
Proof.
  induction n as [|n IH]; intros l Hl; simpl; [exact Hl|].
  destruct (strings.strip_one runes l) as [l'|] eqn:Hs; [|exact Hl].
  apply IH. destruct (strip_one_app _ _ _ Hs) as [p ->].
  rewrite forallb_app in Hl. now apply andb_prop in Hl as [_ Hl].
Qed.

Lemma forallb_rev {A} (q : A → bool) (l : list A) : forallb q (rev l) = forallb q l.
Proof.
  induction l as [|x l IH]; [reflexivity|].
  simpl. rewrite forallb_app, IH. simpl. rewrite andb_true_r. apply andb_comm.
Qed.

Lemma TrimSpace_all_bytes (q : ascii → bool) (s : string) :
  all_bytes q s = true → all_bytes q (strings.TrimSpace s) = true.
Proof.
  unfold all_bytes, strings.TrimSpace, strings.trim_right, strings.trim_left. intros H.
  rewrite list_ascii_of_string_of_list_ascii, forallb_rev.
  apply trim_left_fuel_forallb. rewrite forallb_rev.
  now apply trim_left_fuel_forallb.
Qed.

Lemma head_syntax : syntax gitHeadBranchNameReg = anchored_group (not_chr "/") Eol.
Proof. reflexivity. Qed.

(** The text has no place where a branch name could start: after every
    prefix without a newline, the rest is empty or holds a slash. *)
Lemma find_head_none (text : list ascii) :
  (∀ n, (n ≤ List.length text)%nat → forallb dot (take n text) = true →
        drop n text = [] ∨ forallb (not_chr "/") (drop n text) = false) →
  FindStringSubmatch gitHeadBranchNameReg (string_of_list_ascii text) = [].
Proof.
  intros Hno. unfold FindStringSubmatch. rewrite head_syntax. unfold anchored_group.
  rewrite search_bol, list_ascii_of_string_of_list_ascii.
  change (rmatch (Cat (Star false dot)
                    (Cat (Grp 1 (Cat (Cls (not_chr "/")) (Star true (not_chr "/")))) Eol))
            accept 0 text [])
    with (star_lazy dot
            (rmatch (Cat (Grp 1 (Cat (Cls (not_chr "/")) (Star true (not_chr "/")))) Eol)
                    accept) 0 text []).
  rewrite star_lazy_none; [reflexivity|].
  intros n Hn Hdot. destruct (Hno n Hn Hdot) as [->|Hslash].
  - reflexivity.
  - now apply (rmatch_needs_clean "/").
Qed.

Lemma no_start_empty n : drop n (@nil ascii) = [] ∨ forallb (not_chr "/") (drop n []) = false.
Proof. left. now destruct n. Qed.

Lemma no_start_slash (pre : list ascii) n :
  (n ≤ List.length (pre ++ ["/"%char])%list)%nat →
  drop n (pre ++ ["/"%char])%list = []
  ∨ forallb (not_chr "/") (drop n (pre ++ ["/"%char])%list) = false.
Proof.
  rewrite length_app. simpl. intros Hn.
  destruct (Nat.eq_dec n (List.length pre + 1)) as [->|Hne].
  - left. apply drop_ge. rewrite length_app. simpl. lia.
  - right. rewrite drop_app_le by lia.
    rewrite forallb_app. simpl. apply andb_false_r.
Qed.

Lemma no_start_newline (a b : list ascii) n :
  forallb (not_chr "/") b = false →
  forallb dot (take n (a ++ "010"%char :: b)%list) = true →
  forallb (not_chr "/") (drop n (a ++ "010"%char :: b)%list) = false.
Proof.
  intros Hb Hdot. destruct (Nat.le_gt_cases n (List.length a)) as [Hle|Hgt].
  - rewrite drop_app_le by lia. rewrite forallb_app. simpl. rewrite Hb.
    now rewrite !andb_false_r.
  - rewrite take_app_ge in Hdot by lia. rewrite forallb_app in Hdot.
    apply andb_prop in Hdot as [_ Hdot].
    destruct (n - List.length a) as [|m] eqn:Hm; [lia|]. simpl in Hdot. discriminate.
Qed.

Lemma parseBranchName_none repo w data :
  files.ReadFileAsString w (gitHeadfile repo) = Ok data →
  FindStringSubmatch gitHeadBranchNameReg data = [] →
  parseBranchName repo w
  = (Err (Errorf "could not get branch name for repo %q" [path repo]), repo, w).
Proof.
  intros Hread Hfind. unfold parseBranchName, bind, get, world, fail.
  now rewrite Hread, Hfind.
Qed.

(** After a successful [parseBranchName] the branch name holds no slash,
    whatever [.git/HEAD] contains. *)
Lemma parseBranchName_ok repo repo' w w' :
  parseBranchName repo w = (Ok tt, repo', w') →
  no_slash (BranchName repo') = true
  ∧ ∃ data, files.ReadFileAsString w (gitHeadfile repo) = Ok data.
Proof.
  unfold parseBranchName, bind, get, world, fail, modify.
  destruct (files.ReadFileAsString w (gitHeadfile repo)) as [data|e] eqn:Hread;
    [|discriminate].
  destruct (FindStringSubmatch_anchored gitHeadBranchNameReg (not_chr "/")
              Eol "/" data eq_refl eq_refl eq_refl eq_refl eq_refl)
    as [->|(m1 & pre & post & -> & Hne & Hall & _)]; [discriminate|].
  intros [= <- <-]. split; [|now exists data].
  now apply (TrimSpace_all_bytes (not_chr "/")).
Qed.
End BranchName.

(** X4.  When the text of [.git/HEAD] is [pre/last] with [last] non-empty
    and without a slash (and [pre] without a newline), [parseBranchName]
    sets [BranchName] to [last] with its surrounding white space removed:
    of a branch name with several components only the last one is kept. *)
Theorem parseBranchName_last_component (repo : module.Repo) (w : World) (pre last : string) :
  files.ReadFileAsString w (module.gitHeadfile repo) = Ok (pre ++ "/" ++ last) →
  all_bytes regexp.dot pre = true →
  last ≠ EmptyString → no_slash last = true →
  module.parseBranchName repo w
  = (Ok tt, module.set_BranchName (strings.TrimSpace last) repo, w).
Proof.
  intros Hread Hpre Hne Hlast.
  eapply parseBranchName_run; [exact Hread|].
  now apply find_head_branch.
Qed.

Lemma parseBranchName_last_component_witness :
  module.parseBranchName local_repo (world_head ("ref: refs/heads/feature/login" ++ LF))
  = (Ok tt, module.set_BranchName "login" local_repo,
     world_head ("ref: refs/heads/feature/login" ++ LF)).
Proof.
  apply (parseBranchName_last_component local_repo
           (world_head ("ref: refs/heads/feature/login" ++ LF))
           "ref: refs/heads/feature" ("login" ++ LF));
    [reflexivity | reflexivity | discriminate | reflexivity].
Defined.

(** X5.  [parseBranchName] fails with [could not get branch name] when the
    text of [.git/HEAD] is empty, ends with a slash, or has a newline that
    is followed by a slash later on; the receiver and the world stay as
    they were. *)
Theorem parseBranchName_no_branch (repo : module.Repo) (w : World) (data : string) :
  files.ReadFileAsString w (module.gitHeadfile repo) = Ok data →
  (data = EmptyString
   ∨ (∃ pre, data = pre ++ "/")
   ∨ (∃ a b, data = a ++ LF ++ b ∧ no_slash b = false)) →
  module.parseBranchName repo w
  = (Err (Errorf "could not get branch name for repo %q" [module.path repo]), repo, w).
Proof.
  intros Hread Hshape. apply (parseBranchName_none repo w data Hread).
  rewrite <- (string_of_list_ascii_of_string data). apply find_head_none.
  intros n Hn Hdot. destruct Hshape as [->|[[pre ->]|(a & b & -> & Hb)]].
  - apply no_start_empty.
  - rewrite list_of_string_app in *. now apply no_start_slash.
  - right. rewrite !list_of_string_app in *. now apply no_start_newline.
Qed.

Lemma parseBranchName_no_branch_witness :
  module.parseBranchName local_repo (world_head ("ref: refs/heads/main" ++ LF ++ "a/b"))
  = (Err (Errorf "could not get branch name for repo %q" ["/srv/mod"]), local_repo,
     world_head ("ref: refs/heads/main" ++ LF ++ "a/b")).
Proof.
  apply (parseBranchName_no_branch local_repo _ ("ref: refs/heads/main" ++ LF ++ "a/b"));
    [reflexivity|].
  right. right. exists "ref: refs/heads/main", "a/b". split; reflexivity.
Defined.

(** ** The directory of a clone *)

Section CloneDirectory.
Context `{E : Env}.
Import module.




End CloneDirectory.



(** ** [NewRepo] as a whole *)

Section NewRepoSteps.
Context `{E : Env}.
Import module.

(** The three steps of a [NewRepo] that succeeded. *)
Lemma NewRepo_ok_steps url tempDir sym allow w repo' w' :
  NewRepo url tempDir sym allow w = (Ok repo', w') →
  let isCAS := strings.HasPrefix url "cas://" in
  let u := if isCAS then strings.TrimPrefix url "cas://" else url in
  ∃ repo1 repo2,
    clone (mkRepo u tempDir EmptyString EmptyString sym isCAS) w = (Ok tt, repo1, w')
    ∧ parseRemoteURL repo1 w' = (Ok tt, repo2, w')
    ∧ parseBranchName repo2 w' = (Ok tt, repo', w').
Proof.
  unfold NewRepo. cbv zeta.
  destruct (strings.HasPrefix url "cas://" && negb allow); [discriminate|].
  unfold bind.
  destruct (clone _ w) as [[[[]|e] repo1] w1] eqn:Hc; [|discriminate].
  destruct (parseRemoteURL repo1 w1) as [[[[]|e] repo2] w2] eqn:Hr; [|discriminate].
  destruct (parseBranchName repo2 w2) as [[[[]|e] repo3] w3] eqn:Hb; [|discriminate].
  intros [= <- <-].
  pose proof (parseRemoteURL_frame _ _ _ _ _ Hr) as (-> & _).
  pose proof (parseBranchName_frame _ _ _ _ _ Hb) as (-> & _).
  eauto.
Qed.

Lemma parseRemoteURL_ok repo w repo' w' :
  parseRemoteURL repo w = (Ok tt, repo', w') →
  files.FileExists w (gitConfigPath repo) = true
  ∧ walkWithSymlinks repo' = walkWithSymlinks repo
  ∧ BranchName repo' = BranchName repo.
Proof.
  unfold parseRemoteURL, bind, get, world, fail, modify, ret, gitConfigPath.
  destruct (files.FileExists w _); [|discriminate]. cbn [negb].
  destruct (files.ReadFileAsString w _); [|discriminate].
  destruct (ini_parse _); [|discriminate].
  destruct (String.eqb _ _); intros [= <- <-]; auto.
Qed.

Lemma parseRemoteURL_missing repo w :
  files.FileExists w (gitConfigPath repo) = false →
  parseRemoteURL repo w = (Err (not_a_repository (path repo)), repo, w).
Proof.
  unfold parseRemoteURL, gitConfigPath, bind, get, world, fail. now intros ->.
Qed.

Lemma parseBranchName_fields repo w r repo' w' :
  parseBranchName repo w = (r, repo', w') →
  walkWithSymlinks repo' = walkWithSymlinks repo ∧ RemoteURL repo' = RemoteURL repo.
Proof.
  unfold parseBranchName, bind, get, world, fail, modify, ret.
  destruct (files.ReadFileAsString w _); [|intros [= <- <- <-]; auto].
  destruct (regexp.FindStringSubmatch _ _) as [|m0 [|m1 ms]]; intros [= <- <- <-]; auto.
Qed.

Ltac fields_leaf :=
  unfold no_cas;
  cbn [app walkWithSymlinks useCAS RemoteURL BranchName set_path set_cloneURL];
  repeat match goal with
         | |- _ ∧ _ => split
         | |- Forall _ [] => constructor
         | |- Forall _ (_ :: _) => constructor
         end;
  cbn [ev_call is_cas];
  try solve [ reflexivity | assumption ].

(** [clone] writes [path] and [cloneURL] only, and without [useCAS] it
    never calls the CAS engine. *)
Lemma clone_fields repo w :
  wp clone (λ evs _ repo' _,
              walkWithSymlinks repo' = walkWithSymlinks repo
              ∧ useCAS repo' = useCAS repo
              ∧ RemoteURL repo' = RemoteURL repo
              ∧ BranchName repo' = BranchName repo
              ∧ (useCAS repo = false → no_cas evs))
     repo w.
Proof.
  unfold_clone.
  destruct (useCAS repo) eqn:Hcas;
    repeat first
      [ progress (cbn [useCAS set_path set_cloneURL]; rewrite ?Hcas; cbv beta iota)
      | wp_step | wp_lib_cases ];
    fields_leaf; try discriminate; intros _; fields_leaf.
Qed.

Lemma clone_local_steps repo w u repo0 w0 :
  resolveCloneURL repo w = (Ok u, repo0, w0) →
  files.IsDir w0 u = true →
  clone repo w = handleLocalDir u repo0 w0.
Proof.
  intros Hres Hdir. unfold clone. unfold bind at 1. rewrite Hres.
  unfold bind at 1, world. now rewrite Hdir.
Qed.

Lemma IsAbs_cons p : filepath.IsAbs p = true → ∃ q, p = String "/" q.
Proof.
  destruct p as [|a q]; [discriminate|]. unfold filepath.IsAbs. simpl.
  destruct (Ascii.eqb_spec a "/") as [->|]; [eauto | discriminate].
Qed.

Lemma Clean_abs p : filepath.IsAbs p = true → filepath.IsAbs (filepath.Clean p) = true.
Proof.
  intros Habs. destruct (IsAbs_cons p Habs) as [q ->].
  unfold filepath.Clean. cbn [String.eqb]. rewrite Habs. cbv zeta.
  destruct (filepath.elements true _) as [|x l]; [reflexivity|].
  change ("/" ++ strings.Join (x :: l) "/") with (String "/" (strings.Join (x :: l) "/")).
  unfold filepath.IsAbs. now destruct (strings.Join (x :: l) "/").
Qed.

Lemma Abs_abs d p s :
  (filepath.IsAbs p = false → ∃ d', d = Some d' ∧ filepath.IsAbs d' = true) →
  filepath.Abs d p = Ok s → filepath.IsAbs s = true.
Proof.
  unfold filepath.Abs. destruct (filepath.IsAbs p) eqn:Hp.
  - intros _ [= <-]. now apply Clean_abs.
  - intros Hd. destruct (Hd eq_refl) as (d' & -> & Habs). intros [= <-].
    destruct (IsAbs_cons d' Habs) as [q ->].
    cbn [filepath.Join String.eqb strings.Join]. apply Clean_abs.
    change (filepath.IsAbs (String "/" (q ++ "/" ++ p)) = true).
    unfold filepath.IsAbs. now destruct (q ++ "/" ++ p).
Qed.
End NewRepoSteps.

(** X7.  For a clone URL that does not start with [cas://], the experiment
    flag makes no difference to [NewRepo], the CAS engine is never called,
    and the repository built is not marked [useCAS]. *)
Theorem NewRepo_plain_no_cas `{E : Env} (url tempDir : string) (sym allow : bool)
    (w : World) r w' :
  strings.HasPrefix url "cas://" = false →
  module.NewRepo url tempDir sym allow w = (r, w') →
  module.NewRepo url tempDir sym (negb allow) w = (r, w')
  ∧ ∃ evs, trace w' = (trace w ++ evs)%list
           ∧ no_cas evs
           ∧ ∀ repo', r = Ok repo' → module.useCAS repo' = false.
Proof.
  intros Hpre. unfold module.NewRepo. rewrite Hpre. cbn [andb]. cbv zeta.
  intros Hrun. split; [exact Hrun|]. revert Hrun.
  set (repo := module.mkRepo url tempDir "" "" sym false).
  unfold bind.
  destruct (module.clone repo w) as [[rc repoc] wc] eqn:Hclone.
  destruct (wp_run _ _ _ _ _ _ _ (clone_fields repo w) Hclone)
    as (evs & Ht & _ & Hcas & _ & _ & Hno).
  specialize (Hno eq_refl).
  destruct rc as [[]|e].
  2:{ intros [= <- <-]. exists evs. repeat split; auto. intros ? [=]. }
  destruct (module.parseRemoteURL repoc wc) as [[r2 repo2] w2] eqn:Hp2.
  apply parseRemoteURL_frame in Hp2 as (-> & _ & Hc2 & _).
  destruct r2 as [[]|e].
  2:{ intros [= <- <-]. exists evs. repeat split; auto. intros ? [=]. }
  destruct (module.parseBranchName repo2 wc) as [[r3 repo3] w3] eqn:Hp3.
  apply parseBranchName_frame in Hp3 as (-> & _ & Hc3 & _).
  destruct r3 as [[]|e]; intros [= <- <-]; exists evs; repeat split; auto.
  - intros ? [= <-]. now rewrite Hc3, Hc2.
  - intros ? [=].
Qed.

Lemma NewRepo_plain_no_cas_witness :
  let url := "https://example.org/infra.git" in
  let run := module.NewRepo (E:=fake.env) url "/tmp/catalog" false true fake.world0 in
  module.NewRepo (E:=fake.env) url "/tmp/catalog" false false fake.world0 = (run.1, run.2)
  ∧ ∃ evs, trace run.2 = (trace fake.world0 ++ evs)%list
           ∧ no_cas evs
           ∧ ∀ repo', run.1 = Ok repo' → module.useCAS repo' = false.
Proof.
  cbv zeta.
  apply (NewRepo_plain_no_cas (E:=fake.env) "https://example.org/infra.git" "/tmp/catalog"
           false true fake.world0); [reflexivity|].
  now destruct (module.NewRepo _ _ _ _ _).
Defined.

(** X8.  The repository a successful [NewRepo] returns is a git work tree
    as far as the package looks: [.git/config] exists under its [path],
    [.git/HEAD] can be read there, its branch name holds no slash, it is
    marked [useCAS] exactly when the URL had the [cas://] prefix, and it
    keeps the symlink setting it was given. *)
Theorem NewRepo_ok_work_tree `{E : Env} (url tempDir : string) (sym allow : bool)
    (w : World) repo' w' :
  module.NewRepo url tempDir sym allow w = (Ok repo', w') →
  files.FileExists w' (gitConfigPath repo') = true
  ∧ (∃ data, files.ReadFileAsString w' (module.gitHeadfile repo') = Ok data)
  ∧ no_slash (module.BranchName repo') = true
  ∧ module.useCAS repo' = strings.HasPrefix url "cas://"
  ∧ module.walkWithSymlinks repo' = sym.
Proof.
  intros Hrun. apply NewRepo_ok_steps in Hrun as (repo1 & repo2 & Hc & Hr & Hb).
  cbv zeta in Hc.
  destruct (wp_run _ _ _ _ _ _ _ (clone_fields _ w) Hc) as (evs & _ & Hw1 & Hc1 & _).
  cbn [module.walkWithSymlinks module.useCAS] in Hw1, Hc1.
  pose proof (parseRemoteURL_frame _ _ _ _ _ Hr) as (_ & _ & Hc2 & Hp2).
  pose proof (parseBranchName_frame _ _ _ _ _ Hb) as (_ & _ & Hc3 & Hp3).
  destruct (parseRemoteURL_ok _ _ _ _ Hr) as (Hcfg & Hw2 & _).
  destruct (parseBranchName_fields _ _ _ _ _ Hb) as (Hw3 & _).
  destruct (parseBranchName_ok _ _ _ _ Hb) as (Hslash & data & Hhead).
  unfold gitConfigPath, module.gitHeadfile in *.
  rewrite Hp3. repeat split.
  - now rewrite Hp2.
  - now exists data.
  - exact Hslash.
  - now rewrite Hc3, Hc2.
  - now rewrite Hw3, Hw2.
Qed.

Lemma NewRepo_ok_work_tree_witness :
  let repo' := module.mkRepo "/srv/mod" "/srv/mod" "https://example.org/fork.git" "main"
                             true false in
  files.FileExists fake.world0 (gitConfigPath repo') = true
  ∧ (∃ data, files.ReadFileAsString fake.world0 (module.gitHeadfile repo') = Ok data)
  ∧ no_slash (module.BranchName repo') = true
  ∧ module.useCAS repo' = strings.HasPrefix "/srv/mod" "cas://"
  ∧ module.walkWithSymlinks repo' = true.
Proof.
  cbv zeta.
  apply (NewRepo_ok_work_tree (E:=fake.env) "/srv/mod" "/tmp/catalog" true false
           fake.world0 _ fake.world0).
  vm_compute. reflexivity.
Defined.

(** X9.  [NewRepo] on an absolute path of an existing directory that has
    no [.git/config] fails with the error that the path is not a git
    repository, and leaves the world as it was: nothing is fetched, written
    or removed, and no library is called. *)
Theorem NewRepo_local_not_git `{E : Env} (url tempDir : string) (sym allow : bool)
    (w : World) :
  filepath.IsAbs url = true →
  files.IsDir w url = true →
  files.FileExists w (filepath.Join [url; ".git"; "config"]) = false →
  module.NewRepo url tempDir sym allow w = (Err (not_a_repository url), w).
Proof.
  intros Habs Hdir Hcfg. destruct (IsAbs_cons url Habs) as [q ->].
  unfold module.NewRepo.
  change (strings.HasPrefix (String "/" q) "cas://") with false. cbn [andb]. cbv zeta.
  set (repo := module.mkRepo (String "/" q) tempDir "" "" sym false).
  unfold bind at 1.
  rewrite (clone_local_steps repo w (String "/" q) repo w); [|reflexivity|exact Hdir].
  unfold module.handleLocalDir. rewrite Habs. cbn [negb].
  unfold bind, modify, ret.
  now rewrite (parseRemoteURL_missing (module.set_path (String "/" q) repo) w Hcfg).
Qed.

Lemma NewRepo_local_not_git_witness :
  module.NewRepo (E:=fake.env) "/srv" "/tmp/catalog" false false fake.world0
  = (Err (not_a_repository "/srv"), fake.world0).
Proof.
  apply (NewRepo_local_not_git (E:=fake.env) "/srv" "/tmp/catalog" false false fake.world0);
    reflexivity.
Defined.

(** X10.  [NewRepo] on an absolute path of a local git work tree uses the
    directory in place: [path] is the directory itself, not a directory
    under the one given for clones; [RemoteURL] is the [url] of the remote
    section of the config that [parseRemoteURL] selects (empty when there is
    none), [BranchName] the last component of [.git/HEAD]; the world is as
    before, so nothing is fetched, written or removed. *)
Theorem NewRepo_local_work_tree `{E : Env} (url tempDir : string) (sym allow : bool)
    (w : World) content inidata (pre last : string) :
  filepath.IsAbs url = true →
  files.IsDir w url = true →
  files.ReadFileAsString w (filepath.Join [url; ".git"; "config"]) = Ok content →
  ini_parse content = Ok inidata →
  files.ReadFileAsString w (filepath.Join [url; ".git"; "HEAD"]) = Ok (pre ++ "/" ++ last) →
  all_bytes regexp.dot pre = true →
  last ≠ EmptyString → no_slash last = true →
  module.NewRepo url tempDir sym allow w
  = (Ok (module.mkRepo url url
           (let sectionName := module.remoteSection (ini.SectionStrings inidata) EmptyString in
            if String.eqb sectionName EmptyString then EmptyString
            else ini.KeyString inidata sectionName "url")
           (strings.TrimSpace last) sym false), w).
Proof.
  intros Habs Hdir Hcfg Hini Hhead Hpre Hne Hlast.
  destruct (IsAbs_cons url Habs) as [q ->].
  unfold module.NewRepo.
  change (strings.HasPrefix (String "/" q) "cas://") with false. cbn [andb]. cbv zeta.
  set (repo := module.mkRepo (String "/" q) tempDir "" "" sym false).
  unfold bind at 1.
  rewrite (clone_local_steps repo w (String "/" q) repo w); [|reflexivity|exact Hdir].
  unfold module.handleLocalDir. rewrite Habs. cbn [negb].
  unfold bind, modify, ret.
  rewrite (parseRemoteURL_run (module.set_path (String "/" q) repo) w content inidata
             Hcfg Hini).
  cbv zeta.
  set (repo2 := if String.eqb _ _ then _ else _).
  assert (Hp2 : module.path repo2 = String "/" q).
  { subst repo2. now destruct (String.eqb _ _). }
  erewrite parseBranchName_run;
    [ | unfold module.gitHeadfile; rewrite Hp2; exact Hhead
      | now apply find_head_branch ].
  subst repo2. now destruct (String.eqb _ _).
Qed.

Lemma NewRepo_local_work_tree_witness :
  module.NewRepo (E:=fake.env) "/srv/mod" "/tmp/catalog" false false fake.world0
  = (Ok (module.mkRepo "/srv/mod" "/srv/mod" "https://example.org/fork.git" "main"
                       false false), fake.world0).
Proof.
  apply (NewRepo_local_work_tree (E:=fake.env) "/srv/mod" "/tmp/catalog" false false
           fake.world0 fake.two_remotes
           (match fake.parse fake.two_remotes with Ok i => i | Err _ => [] end)
           "ref: refs/heads" ("main" ++ LF));
    [reflexivity | reflexivity | reflexivity | reflexivity | reflexivity | reflexivity
    | discriminate | reflexivity].
Defined.

(** X11.  When [clone] takes a local directory as the repository, [path]
    is an absolute path, provided the working directory of the process is
    one (as [os.Getwd] reports it). *)
Theorem local_clone_absolute `{E : Env} (repo : module.Repo) (w : World)
    u repo0 w0 repo' w' :
  module.resolveCloneURL repo w = (Ok u, repo0, w0) →
  files.IsDir w0 u = true →
  module.clone repo w = (Ok tt, repo', w') →
  (∀ d, cwd w = Some d → filepath.IsAbs d = true) →
  filepath.IsAbs (module.path repo') = true.
Proof.
  intros Hres Hdir Hclone Hcwd.
  rewrite (clone_local_steps repo w u repo0 w0 Hres Hdir) in Hclone.
  apply resolveCloneURL_frame in Hres as (-> & _ & Hc0 & _).
  apply handleLocalDir_result in Hclone as (_ & _ & _ & Hpath).
  destruct (Hpath eq_refl) as (_ & _ & Hp).
  destruct (filepath.IsAbs u) eqn:Habs; [now rewrite Hp|].
  apply (Abs_abs (cwd w0) u); [|exact Hp].
  intros _. rewrite Hc0. destruct (cwd w) as [d|] eqn:Hd.
  - exists d. auto.
  - unfold filepath.Abs in Hp. rewrite Habs, Hc0 in Hp. discriminate.
Qed.

Lemma local_clone_absolute_witness :
  let repo := module.mkRepo "." "/tmp/catalog" EmptyString EmptyString false false in
  let repo' := module.mkRepo "." "/home" EmptyString EmptyString false false in
  module.clone (E:=fake.env) repo fake.world0
  = (Ok tt, repo', traced fake.world0 [Ev (CallAbs ".") None])
  ∧ filepath.IsAbs (module.path repo') = true.
Proof.
  cbv zeta. split; [vm_compute; reflexivity|].
  apply (local_clone_absolute (E:=fake.env)
           (module.mkRepo "." "/tmp/catalog" EmptyString EmptyString false false)
           fake.world0 "."
           (module.mkRepo "." "/tmp/catalog" EmptyString EmptyString false false)
           fake.world0 _ (traced fake.world0 [Ev (CallAbs ".") None])).
  - reflexivity.
  - vm_compute. reflexivity.
  - vm_compute. reflexivity.
  - intros d [= <-]. reflexivity.
Defined.

(** ** [ModuleURL] *)

Section ModuleURLs.
Import regexp module.

Lemma string_app_assoc (a b c : string) : (a ++ b) ++ c = a ++ b ++ c.
Proof.
  induction a as [|x a IH]; [reflexivity|].
  change (String x ((a ++ b) ++ c) = String x (a ++ b ++ c)). now f_equal.
Qed.

Lemma string_app_nil_r (a : string) : a ++ "" = a.
Proof.
  induction a as [|x a IH]; [reflexivity|].
  change (String x (a ++ "") = String x a). now f_equal.
Qed.

Lemma Sprintf_tree a b c d :
  fmt.Sprintf "https://%s/%s/tree/%s/%s" [a; b; c; d]
  = "https://" ++ a ++ "/" ++ b ++ "/tree/" ++ c ++ "/" ++ d.
Proof.
  change (fmt.Sprintf "https://%s/%s/tree/%s/%s" [a; b; c; d])
    with ("https://" ++ a ++ "/" ++ b ++ "/tree/" ++ c ++ "/" ++ d ++ "").
  now rewrite string_app_nil_r.
Qed.

Lemma Sprintf_dash_tree a b c d :
  fmt.Sprintf "https://%s/%s/-/tree/%s/%s" [a; b; c; d]
  = "https://" ++ a ++ "/" ++ b ++ "/-/tree/" ++ c ++ "/" ++ d.
Proof.
  change (fmt.Sprintf "https://%s/%s/-/tree/%s/%s" [a; b; c; d])
    with ("https://" ++ a ++ "/" ++ b ++ "/-/tree/" ++ c ++ "/" ++ d ++ "").
  now rewrite string_app_nil_r.
Qed.

Lemma string_of_list_app (a b : list ascii) :
  string_of_list_ascii (a ++ b)%list = string_of_list_ascii a ++ string_of_list_ascii b.
Proof.
  induction a as [|x a IH]; [reflexivity|].
  change (String x (string_of_list_ascii (a ++ b)%list)
          = String x (string_of_list_ascii a ++ string_of_list_ascii b)).
  now f_equal.
Qed.

(** The pattern [^(name\.(.+))$] matches exactly the hosts of the family. *)
Lemma MatchString_family name host :
  MatchString (hostFamilyReg name) host = true ↔ in_family name host.
Proof.
  unfold MatchString, hostFamilyReg, in_family. cbn [syntax]. rewrite search_bol.
  set (l := list_ascii_of_string (name ++ ".")).
  split.
  - destruct (rmatch _ accept 0 (list_ascii_of_string host) []) as [[e c]|] eqn:Hm;
      [intros _|discriminate].
    cbn [rmatch] in Hm.
    apply Lit_sound in Hm as (rest & Htext & Hm).
    apply (plus_group_sound 2 dot) in Hm as (n & Hn1 & Hn & Hall & Hk).
    cbv beta in Hk.
    destruct (drop n rest) as [|y ys] eqn:Hd; [|discriminate].
    assert (n = List.length rest) as ->.
    { apply (f_equal (@List.length ascii)) in Hd. rewrite length_drop in Hd.
      simpl in Hd. lia. }
    rewrite firstn_all in Hall.
    exists (string_of_list_ascii rest). repeat split.
    + rewrite <- (string_of_list_ascii_of_string host), Htext.
      unfold l. rewrite string_of_list_app, string_of_list_ascii_of_string.
      apply string_app_assoc.
    + intros Hnil. apply (f_equal list_ascii_of_string) in Hnil.
      rewrite list_ascii_of_string_of_list_ascii in Hnil. subst rest. simpl in Hn1. lia.
    + unfold all_bytes. now rewrite list_ascii_of_string_of_list_ascii.
  - intros (x & -> & Hne & Hall). unfold all_bytes in Hall.
    rewrite <- string_app_assoc, list_of_string_app. fold l.
    cbn [rmatch]. rewrite Lit_match.
    destruct (list_ascii_of_string x) as [|a rest] eqn:Hx.
    { exfalso. apply Hne. now apply list_of_string_nil. }
    simpl in Hall. apply andb_prop in Hall as [Ha Hall].
    cbn [rmatch]. rewrite Ha.
    erewrite (star_greedy_all _ _ _ _ _ (_, _)); [reflexivity | exact Hall | reflexivity].
Qed.

Lemma family_github host : in_family "github" host → ∃ x, host = "github." ++ x.
Proof. intros (x & -> & _). now exists x. Qed.

Lemma family_gitlab host : in_family "gitlab" host → ∃ x, host = "gitlab." ++ x.
Proof. intros (x & -> & _). now exists x. Qed.

Lemma github_in_family : in_family "github" githubHost.
Proof. exists "com". repeat split. discriminate. Qed.

Lemma gitlab_in_family : in_family "gitlab" gitlabHost.
Proof. exists "com". repeat split. discriminate. Qed.

Lemma MatchString_family_false name host :
  ¬ in_family name host → MatchString (hostFamilyReg name) host = false.
Proof.
  intros Hno. destruct (MatchString (hostFamilyReg name) host) eqn:Hm; [|reflexivity].
  now apply MatchString_family in Hm.
Qed.

Variable vcsurl_Parse : string → result vcsurl.VCS.

(** The two tree formats. *)
Lemma ModuleURL_github repo dir remote :
  RemoteURL repo ≠ EmptyString → vcsurl_Parse (RemoteURL repo) = Ok remote →
  in_family "github" (vcsurl.Host remote) →
  ModuleURL vcsurl_Parse repo dir
  = Ok ("https://" ++ vcsurl.Host remote ++ "/" ++ vcsurl.FullName remote
        ++ "/tree/" ++ BranchName repo ++ "/" ++ dir).
Proof.
  intros Hne Hparse Hfam. unfold ModuleURL.
  destruct (String.eqb_spec (RemoteURL repo) ""); [contradiction|].
  rewrite Hparse. cbv zeta. rewrite Sprintf_tree.
  destruct (String.eqb (vcsurl.Host remote) githubHost); [reflexivity|].
  destruct (family_github _ Hfam) as [x Hx].
  assert (Hm := proj2 (MatchString_family "github" _) Hfam).
  unfold githubEnterprisePatternReg. rewrite Hm, Hx. reflexivity.
Qed.

Lemma ModuleURL_gitlab repo dir remote :
  RemoteURL repo ≠ EmptyString → vcsurl_Parse (RemoteURL repo) = Ok remote →
  in_family "gitlab" (vcsurl.Host remote) →
  ModuleURL vcsurl_Parse repo dir
  = Ok ("https://" ++ vcsurl.Host remote ++ "/" ++ vcsurl.FullName remote
        ++ "/-/tree/" ++ BranchName repo ++ "/" ++ dir).
Proof.
  intros Hne Hparse Hfam. unfold ModuleURL.
  destruct (String.eqb_spec (RemoteURL repo) ""); [contradiction|].
  rewrite Hparse. cbv zeta. rewrite Sprintf_dash_tree.
  destruct (family_gitlab _ Hfam) as [x Hx].
  assert (Hm := proj2 (MatchString_family "gitlab" _) Hfam).
  assert (Hg : MatchString githubEnterprisePatternReg (vcsurl.Host remote) = false).
  { apply MatchString_family_false. intros Hf. apply family_github in Hf as [y Hy].
    rewrite Hx in Hy. discriminate. }
  rewrite Hg. unfold gitlabSelfHostedPatternReg. rewrite Hm, Hx.
  destruct (String.eqb _ gitlabHost); reflexivity.
Qed.
End ModuleURLs.

(** X12.  A repository without a remote URL has local module URLs: when the
    git config names no remote section, [parseRemoteURL] succeeds and leaves
    the repository as it is, and with an empty [RemoteURL], [ModuleURL] is
    the cleaned path of the module directory under [path], whatever the URL
    parser would say. *)
Theorem no_remote_local_module `{E : Env} (parse : string → result vcsurl.VCS)
    (repo : module.Repo) (w : World) content inidata (moduleDir : string) :
  files.ReadFileAsString w (gitConfigPath repo) = Ok content →
  ini_parse content = Ok inidata →
  List.filter is_remote (ini.SectionStrings inidata) = [] →
  module.RemoteURL repo = EmptyString →
  module.parseRemoteURL repo w = (Ok tt, repo, w)
  ∧ module.ModuleURL parse repo moduleDir
    = Ok (filepath.Join [module.path repo; moduleDir]).
Proof.
  intros Hread Hparse Hnone Hurl. split.
  - rewrite (parseRemoteURL_run repo w content inidata Hread Hparse). cbv zeta.
    rewrite remoteSection_last, Hnone; [reflexivity|].
    intros Hin.
    assert (Hf : In remote_origin (List.filter is_remote (ini.SectionStrings inidata))).
    { apply filter_In. split; [exact Hin | reflexivity]. }
    now rewrite Hnone in Hf.
  - unfold module.ModuleURL. now rewrite Hurl.
Qed.

Lemma no_remote_local_module_witness :
  module.parseRemoteURL (E:=fake.env) local_repo (world_config config_no_remote)
  = (Ok tt, local_repo, world_config config_no_remote)
  ∧ module.ModuleURL (parsed_as "github.com" "team/infra") local_repo "modules/vpc"
    = Ok "/srv/mod/modules/vpc".
Proof.
  apply (no_remote_local_module (E:=fake.env) (parsed_as "github.com" "team/infra")
           local_repo (world_config config_no_remote) config_no_remote
           (match fake.parse config_no_remote with Ok i => i | Err _ => [] end)
           "modules/vpc");
    reflexivity.
Defined.

(** X13.  For a remote on [github.com] or on a host [github.x], [ModuleURL]
    is [https://host/fullname/tree/branch/moduleDir]; for a remote on
    [gitlab.com] or on a host [gitlab.x] it is
    [https://host/fullname/-/tree/branch/moduleDir]. *)
Theorem ModuleURL_tree (parse : string → result vcsurl.VCS) (repo : module.Repo)
    (moduleDir : string) (remote : vcsurl.VCS) :
  module.RemoteURL repo ≠ EmptyString →
  parse (module.RemoteURL repo) = Ok remote →
  (in_family "github" (vcsurl.Host remote) →
   module.ModuleURL parse repo moduleDir
   = Ok ("https://" ++ vcsurl.Host remote ++ "/" ++ vcsurl.FullName remote
         ++ "/tree/" ++ module.BranchName repo ++ "/" ++ moduleDir))
  ∧ (in_family "gitlab" (vcsurl.Host remote) →
     module.ModuleURL parse repo moduleDir
     = Ok ("https://" ++ vcsurl.Host remote ++ "/" ++ vcsurl.FullName remote
           ++ "/-/tree/" ++ module.BranchName repo ++ "/" ++ moduleDir)).
Proof.
  intros Hne Hparse. split; intros Hfam.
  - now apply ModuleURL_github.
  - now apply ModuleURL_gitlab.
Qed.

Lemma ModuleURL_tree_witness :
  let repo := module.mkRepo "https://github.acme.io/team/infra.git" "/tmp/catalog/infra.git"
                            "https://github.acme.io/team/infra.git" "main" false false in
  module.ModuleURL (parsed_as "github.acme.io" "team/infra") repo "modules/vpc"
  = Ok "https://github.acme.io/team/infra/tree/main/modules/vpc".
Proof.
  cbv zeta.
  apply (ModuleURL_tree (parsed_as "github.acme.io" "team/infra")
           (module.mkRepo "https://github.acme.io/team/infra.git" "/tmp/catalog/infra.git"
                          "https://github.acme.io/team/infra.git" "main" false false)
           "modules/vpc" (vcsurl.mkVCS "github.acme.io" "team/infra")).
  - discriminate.
  - reflexivity.
  - exists "acme.io". repeat split. discriminate.
Defined.

(** X14.  With a remote URL that parses, [ModuleURL] returns a URL for the
    hosts [bitbucket.org], [dev.azure.com], [github.x] and [gitlab.x], and
    for every other host it fails with [hosting: ... is not supported yet]. *)
Theorem ModuleURL_supported (parse : string → result vcsurl.VCS) (repo : module.Repo)
    (moduleDir : string) (remote : vcsurl.VCS) :
  module.RemoteURL repo ≠ EmptyString →
  parse (module.RemoteURL repo) = Ok remote →
  (supported_host (vcsurl.Host remote) →
   ∃ u, module.ModuleURL parse repo moduleDir = Ok u)
  ∧ (¬ supported_host (vcsurl.Host remote) →
     module.ModuleURL parse repo moduleDir
     = Err (Errorf "hosting: %q is not supported yet" [vcsurl.Host remote])).
Proof.
  intros Hne Hparse. split.
  - intros [Hb|[Ha|[Hg|Hl]]].
    + unfold module.ModuleURL.
      destruct (String.eqb_spec (module.RemoteURL repo) ""); [contradiction|].
      rewrite Hparse, Hb. cbv zeta. eexists. reflexivity.
    + unfold module.ModuleURL.
      destruct (String.eqb_spec (module.RemoteURL repo) ""); [contradiction|].
      rewrite Hparse, Ha. cbv zeta. eexists. reflexivity.
    + eexists. exact (ModuleURL_github parse repo moduleDir remote Hne Hparse Hg).
    + eexists. exact (ModuleURL_gitlab parse repo moduleDir remote Hne Hparse Hl).
  - intros Hno. unfold module.ModuleURL, supported_host in *.
    destruct (String.eqb_spec (module.RemoteURL repo) ""); [contradiction|].
    rewrite Hparse. cbv zeta.
    destruct (String.eqb_spec (vcsurl.Host remote) module.githubHost) as [Hh|_].
    { exfalso. apply Hno. right. right. left. rewrite Hh. apply github_in_family. }
    destruct (String.eqb_spec (vcsurl.Host remote) module.gitlabHost) as [Hh|_].
    { exfalso. apply Hno. right. right. right. rewrite Hh. apply gitlab_in_family. }
    destruct (String.eqb_spec (vcsurl.Host remote) module.bitbucketHost) as [Hh|_].
    { exfalso. apply Hno. now left. }
    destruct (String.eqb_spec (vcsurl.Host remote) module.azuredevHost) as [Hh|_].
    { exfalso. apply Hno. right. now left. }
    unfold module.githubEnterprisePatternReg, module.gitlabSelfHostedPatternReg.
    rewrite !MatchString_family_false; [reflexivity|tauto|tauto].
Qed.

Lemma ModuleURL_supported_witness :
  let repo := module.mkRepo "https://codeberg.org/team/infra.git" "/tmp/catalog/infra.git"
                            "https://codeberg.org/team/infra.git" "main" false false in
  module.ModuleURL (parsed_as "codeberg.org" "team/infra") repo "modules/vpc"
  = Err (Errorf "hosting: %q is not supported yet" ["codeberg.org"]).
Proof.
  cbv zeta.
  apply (ModuleURL_supported (parsed_as "codeberg.org" "team/infra")
           (module.mkRepo "https://codeberg.org/team/infra.git" "/tmp/catalog/infra.git"
                          "https://codeberg.org/team/infra.git" "main" false false)
           "modules/vpc" (vcsurl.mkVCS "codeberg.org" "team/infra")).
  - discriminate.
  - reflexivity.
  - intros [H|[H|[(x & H & _)|(x & H & _)]]]; discriminate H.
Defined.
